(** * dwv pixel buffer decoders and files loader: a shallow embedding

    The development follows the decoder module (the three classes
    [AsynchPixelBufferDecoder], [SynchPixelBufferDecoder] and
    [PixelBufferDecoder], with the registry [decoderScripts] and the three
    engine flags) and the files loader module (the counters of
    [FilesLoader]).

    Modelling conventions.
    - A method is a function from the object's fields to the new fields,
      the list of callback invocations it performed (in program order)
      and the way it completed (returned, or threw an exception).  A
      [throw] keeps the assignments made before it, as in JavaScript.
    - A callback is an opaque value ([Handler]); invoking it is recorded
      in the trace and assumed to return.  [noop] is the prototype
      method "Default does nothing".
    - JavaScript numbers that count things are integers ([Z]); the only
      non-integer number is [bitsAllocated / 8], a rational.
    - An object used as a dictionary is a finite map of its own
      properties.  Reading [decoderScripts[algoName]], where the name is
      any string, also finds the members that the object inherits from
      [Object.prototype]; the groups and elements of a tag have four
      characters, which is the name of no inherited member.
    - The codec engines ([jpeg.lossless], [JpegImage], [JpxImage],
      [RleDecoder]) and the thread pool are external collaborators: the
      engines are the fields of [Engines], the pool those of
      [ThreadPool]. *)

From Stdlib Require Import ZArith QArith List String Bool Lia.
From stdpp Require Import base option list strings gmap.
Import ListNotations.

Local Open Scope string_scope.
Local Open Scope list_scope.
Local Open Scope Z_scope.

(** ** Values *)

(** Exceptions: [new Error(message)], a [RangeError] of a typed array
    constructor, or whatever an engine throws. *)
Record Exn := mkExn { exn_name : string; exn_message : string }.

Definition Error (message : string) : Exn := mkExn "Error" message.
Definition RangeError (message : string) : Exn := mkExn "RangeError" message.

Inductive Result (A : Type) : Type :=
| Ok (a : A)
| Throw (e : Exn).
Arguments Ok {A} a.
Arguments Throw {A} e.

Definition bind {A B} (r : Result A) (k : A -> Result B) : Result B :=
  match r with
  | Ok a => k a
  | Throw e => Throw e
  end.

Notation "'let*' x ':=' r 'in' k" := (bind r (fun x => k))
  (at level 10, x name, r at level 100, k at level 200).

(** The four typed array classes the decoder instantiates itself. *)
Inductive ArrayKind := Int8Array | Uint8Array | Int16Array | Uint16Array.

(** A typed array: a view of class [kind] over the bytes of an
    [ArrayBuffer]. *)
Record TypedArray := mkTypedArray { kind : ArrayKind; buffer : list Z }.

Definition BYTES_PER_ELEMENT (k : ArrayKind) : Z :=
  match k with
  | Int8Array | Uint8Array => 1
  | Int16Array | Uint16Array => 2
  end.

Definition byteLength (buf : list Z) : Z := Z.of_nat (length buf).

(** [new K(arrayBuffer)]: a view over the whole buffer; a [RangeError]
    when the byte length is not a multiple of the element size. *)
Definition newTypedArray (k : ArrayKind) (buf : list Z) : Result TypedArray :=
  if byteLength buf mod BYTES_PER_ELEMENT k =? 0
  then Ok (mkTypedArray k buf)
  else Throw (RangeError "byte length should be a multiple of the element size").

(** [new Uint8Array(pixelBuffer)]: a copy of the elements, each converted
    to an unsigned byte. *)
Definition newUint8ArrayFrom (pixelBuffer : list Z) : list Z :=
  map (fun x => x mod 256) pixelBuffer.

(** The input meta data, as read by [decode]. *)
Record PixelMeta := mkPixelMeta {
  bitsAllocated : Z;
  isSigned : bool;
  sliceSize : Z;
  samplesPerPixel : Z;
  planarConfiguration : Z
}.

(** The information object about the input data. *)
Record Info := mkInfo { itemNumber : Z }.

(** ** Callbacks and traces *)

Inductive Handler :=
| noop
| handler (id : nat).

(** The six lifecycle callbacks every decoder class declares. *)
Inductive Slot :=
| ondecodestart | ondecodeditem | ondecoded | ondecodeend | onerror | onabort.

(** The six callbacks of the thread pool. *)
Inductive PoolSlot :=
| onworkstart | onworkitem | onwork | onworkend | pool_onerror | pool_onabort.

(** Event objects. *)
Inductive Event :=
| EmptyEvent
| ItemEvent (data : list (option TypedArray)) (index : Z)
| WorkEvent (detail : string).

(** One callback invocation: [decoder.<slot>(event)] or
    [pool.<slot>(event)], with the function found in that field. *)
Inductive Call :=
| Invoke (s : Slot) (h : Handler) (e : Event)
| InvokePool (s : PoolSlot) (h : Handler) (e : Event).

Inductive Completion :=
| Returned
| Thrown (e : Exn).

(** The callback fields of a decoder object. *)
Record Callbacks := mkCallbacks {
  cb_ondecodestart : Handler;
  cb_ondecodeditem : Handler;
  cb_ondecoded : Handler;
  cb_ondecodeend : Handler;
  cb_onerror : Handler;
  cb_onabort : Handler
}.

(** A new object: every callback is the prototype's do-nothing method. *)
Definition defaultCallbacks : Callbacks :=
  mkCallbacks noop noop noop noop noop noop.

Definition getCallback (s : Slot) (c : Callbacks) : Handler :=
  match s with
  | ondecodestart => cb_ondecodestart c
  | ondecodeditem => cb_ondecodeditem c
  | ondecoded => cb_ondecoded c
  | ondecodeend => cb_ondecodeend c
  | onerror => cb_onerror c
  | onabort => cb_onabort c
  end.

(** [object.<slot> = h]. *)
Definition setCallback (s : Slot) (h : Handler) (c : Callbacks) : Callbacks :=
  match s with
  | ondecodestart =>
      mkCallbacks h (cb_ondecodeditem c) (cb_ondecoded c) (cb_ondecodeend c)
        (cb_onerror c) (cb_onabort c)
  | ondecodeditem =>
      mkCallbacks (cb_ondecodestart c) h (cb_ondecoded c) (cb_ondecodeend c)
        (cb_onerror c) (cb_onabort c)
  | ondecoded =>
      mkCallbacks (cb_ondecodestart c) (cb_ondecodeditem c) h (cb_ondecodeend c)
        (cb_onerror c) (cb_onabort c)
  | ondecodeend =>
      mkCallbacks (cb_ondecodestart c) (cb_ondecodeditem c) (cb_ondecoded c) h
        (cb_onerror c) (cb_onabort c)
  | onerror =>
      mkCallbacks (cb_ondecodestart c) (cb_ondecodeditem c) (cb_ondecoded c)
        (cb_ondecodeend c) h (cb_onabort c)
  | onabort =>
      mkCallbacks (cb_ondecodestart c) (cb_ondecodeditem c) (cb_ondecoded c)
        (cb_ondecodeend c) (cb_onerror c) h
  end.

(** ** The codec engines *)

(** The three availability flags are computed once, when the module is
    loaded ([typeof JpegImage !== 'undefined'] and the like).  Each engine
    is the composite call the decoder makes on it:
    - [jpeg_lossless_decode buffer offset length bpe] is
      [new jpeg.lossless.Decoder().decode(...)] and yields the bytes of
      [decoded.buffer];
    - [JpegImage_getData b] is [parse(b)] then [getData(width, height)];
    - [JpxImage_items b] is [parse(b)] then [tiles[0].items];
    - [RleDecoder_decode] is the [decode] of the RLE decoder. *)
Record Engines := mkEngines {
  hasJpegBaselineDecoder : bool;
  hasJpegLosslessDecoder : bool;
  hasJpeg2000Decoder : bool;
  jpeg_lossless_decode : list Z -> Z -> Z -> Q -> Result (list Z);
  JpegImage_getData : list Z -> Result TypedArray;
  JpxImage_items : list Z -> Result TypedArray;
  RleDecoder_decode : list Z -> Z -> bool -> Z -> Z -> Z -> Result TypedArray
}.

(** ** SynchPixelBufferDecoder *)

Module SynchPixelBufferDecoder.

Record t := mk {
  algoName : string;
  numberOfData : Z;
  decodeCount : Z;
  callbacks : Callbacks
}.

(** [new SynchPixelBufferDecoder(algoName, numberOfData)]. *)
Definition new (algoName : string) (numberOfData : Z) : t :=
  mk algoName numberOfData 0 defaultCallbacks.

(** The six assignments [d.on... = ...] made by the owner of [d]. *)
Definition setCallbacks (c : Callbacks) (d : t) : t :=
  mk (algoName d) (numberOfData d) (decodeCount d) c.

(** The dispatch of [decode] (from [var decoder = null] to the end of
    the [if] chain): the value of [decodedBuffer], [None] for [null]. *)
Definition decodedBuffer (E : Engines) (algoName : string)
    (pixelBuffer : list Z) (pixelMeta : PixelMeta)
    : Result (option TypedArray) :=
  if String.eqb algoName "jpeg-lossless" then
    if negb (hasJpegLosslessDecoder E) then
      Throw (Error "No JPEG Lossless decoder provided")
    else
      let bpe := Qmake (bitsAllocated pixelMeta) 8 in
      let buf := newUint8ArrayFrom pixelBuffer in
      let* decoded := jpeg_lossless_decode E buf 0 (byteLength buf) bpe in
      if bitsAllocated pixelMeta =? 8 then
        if isSigned pixelMeta then
          let* a := newTypedArray Int8Array decoded in Ok (Some a)
        else
          let* a := newTypedArray Uint8Array decoded in Ok (Some a)
      else if bitsAllocated pixelMeta =? 16 then
        if isSigned pixelMeta then
          let* a := newTypedArray Int16Array decoded in Ok (Some a)
        else
          let* a := newTypedArray Uint16Array decoded in Ok (Some a)
      else Ok None
  else if String.eqb algoName "jpeg-baseline" then
    if negb (hasJpegBaselineDecoder E) then
      Throw (Error "No JPEG Baseline decoder provided")
    else
      let* a := JpegImage_getData E pixelBuffer in Ok (Some a)
  else if String.eqb algoName "jpeg2000" then
    if negb (hasJpeg2000Decoder E) then
      Throw (Error "No JPEG 2000 decoder provided")
    else
      let* a := JpxImage_items E pixelBuffer in Ok (Some a)
  else if String.eqb algoName "rle" then
    let* a := RleDecoder_decode E pixelBuffer
                (bitsAllocated pixelMeta) (isSigned pixelMeta)
                (sliceSize pixelMeta) (samplesPerPixel pixelMeta)
                (planarConfiguration pixelMeta) in
    Ok (Some a)
  else Ok None.

(** [decode(pixelBuffer, pixelMeta, info)]. *)
Definition decode (E : Engines) (d : t)
    (pixelBuffer : list Z) (pixelMeta : PixelMeta) (info : Info)
    : t * list Call * Completion :=
  let d := mk (algoName d) (numberOfData d) (decodeCount d + 1) (callbacks d) in
  match decodedBuffer E (algoName d) pixelBuffer pixelMeta with
  | Throw e => (d, [], Thrown e)
  | Ok decodedBuffer =>
      let item :=
        Invoke ondecodeditem (cb_ondecodeditem (callbacks d))
          (ItemEvent [decodedBuffer] (itemNumber info)) in
      if decodeCount d =? numberOfData d then
        (d,
         [item;
          Invoke ondecoded (cb_ondecoded (callbacks d)) EmptyEvent;
          Invoke ondecodeend (cb_ondecodeend (callbacks d)) EmptyEvent],
         Returned)
      else (d, [item], Returned)
  end.

(** [abort()]. *)
Definition abort (d : t) : t * list Call * Completion :=
  (d,
   [Invoke onabort (cb_onabort (callbacks d)) EmptyEvent;
    Invoke ondecodeend (cb_ondecodeend (callbacks d)) EmptyEvent],
   Returned).

End SynchPixelBufferDecoder.

(** ** The thread pool *)

(** The value of [decoderScripts[algoName]] when it is not [undefined]:
    the script path stored under that name or, for a name that has no
    entry of its own, the member of that name that the object inherits
    from [Object.prototype]. *)
Inductive Script :=
| ScriptPath (path : string)
| Inherited (member : string).

(** A worker task: [new WorkerTask(script, {buffer, meta}, info)]. *)
Record WorkerTask := mkWorkerTask {
  task_script : Script;
  task_buffer : list Z;
  task_meta : PixelMeta;
  task_info : Info
}.

(** The callback fields of the pool object. *)
Record PoolCallbacks := mkPoolCallbacks {
  pcb_onworkstart : Handler;
  pcb_onworkitem : Handler;
  pcb_onwork : Handler;
  pcb_onworkend : Handler;
  pcb_onerror : Handler;
  pcb_onabort : Handler
}.

Definition defaultPoolCallbacks : PoolCallbacks :=
  mkPoolCallbacks noop noop noop noop noop noop.

Definition getPoolCallback (s : PoolSlot) (c : PoolCallbacks) : Handler :=
  match s with
  | onworkstart => pcb_onworkstart c
  | onworkitem => pcb_onworkitem c
  | onwork => pcb_onwork c
  | onworkend => pcb_onworkend c
  | pool_onerror => pcb_onerror c
  | pool_onabort => pcb_onabort c
  end.

(** Modelled from the spec: the class [ThreadPool] of [utils/thread],
    which the decoder imports and whose code is not part of the sources at
    hand.  The decoder only constructs it with a capacity, assigns its six
    callback fields, and calls [addWorkerTask] and [abort]; the worker-pool
    scheduler of the specification runs the tasks, emits its events through
    those six callbacks and reacts to what its workers send back.  The pool
    is therefore a parameter: its private state, what each entry point does
    to that state, which events it emits (in order) and how it completes. *)
Record ThreadPool : Type := mkThreadPool {
  PoolState : Type;
  WorkerSignal : Type;
  pool_create : Z -> PoolState;
  pool_addWorkerTask :
    PoolState -> WorkerTask -> PoolState * list (PoolSlot * Event) * Completion;
  pool_abort : PoolState -> PoolState * list (PoolSlot * Event) * Completion;
  pool_signal : PoolState -> WorkerSignal -> PoolState * list (PoolSlot * Event)
}.

(** The pool emits [(slot, event)] by calling the function found in its
    field [slot]. *)
Definition dispatchPool (c : PoolCallbacks) (emitted : list (PoolSlot * Event))
    : list Call :=
  map (fun se => InvokePool (fst se) (getPoolCallback (fst se) c) (snd se)) emitted.

(** ** AsynchPixelBufferDecoder *)

Module AsynchPixelBufferDecoder.
Section WithPool.
Variable T : ThreadPool.

Record t := mk {
  script : Script;
  poolCallbacks : PoolCallbacks;
  pool : PoolState T;
  areCallbacksSet : bool;
  callbacks : Callbacks
}.

(** [new AsynchPixelBufferDecoder(script, _numberOfData)]; the pool is
    [new ThreadPool(10)]. *)
Definition new (script : Script) (_numberOfData : Z) : t :=
  mk script defaultPoolCallbacks (pool_create T 10) false defaultCallbacks.

(** The six assignments [d.on... = ...] made by the owner of [d]. *)
Definition setCallbacks (c : Callbacks) (d : t) : t :=
  mk (script d) (poolCallbacks d) (pool d) (areCallbacksSet d) c.

(** The guarded block at the head of [decode]. *)
Definition setEventHandlers (d : t) : t :=
  if negb (areCallbacksSet d) then
    mk (script d)
      (mkPoolCallbacks
         (cb_ondecodestart (callbacks d))
         (cb_ondecodeditem (callbacks d))
         (cb_ondecoded (callbacks d))
         (cb_ondecodeend (callbacks d))
         (cb_onerror (callbacks d))
         (cb_onabort (callbacks d)))
      (pool d) true (callbacks d)
  else d.

(** [decode(pixelBuffer, pixelMeta, info)]. *)
Definition decode (d : t)
    (pixelBuffer : list Z) (pixelMeta : PixelMeta) (info : Info)
    : t * list Call * Completion :=
  let d := setEventHandlers d in
  let workerTask := mkWorkerTask (script d) pixelBuffer pixelMeta info in
  let '(p, emitted, c) := pool_addWorkerTask T (pool d) workerTask in
  (mk (script d) (poolCallbacks d) p (areCallbacksSet d) (callbacks d),
   dispatchPool (poolCallbacks d) emitted, c).

(** [abort()]. *)
Definition abort (d : t) : t * list Call * Completion :=
  let '(p, emitted, c) := pool_abort T (pool d) in
  (mk (script d) (poolCallbacks d) p (areCallbacksSet d) (callbacks d),
   dispatchPool (poolCallbacks d) emitted, c).

(** A worker of the pool reports back (between two calls of the decoder's
    methods). *)
Definition signal (d : t) (m : WorkerSignal T) : t * list Call :=
  let '(p, emitted) := pool_signal T (pool d) m in
  (mk (script d) (poolCallbacks d) p (areCallbacksSet d) (callbacks d),
   dispatchPool (poolCallbacks d) emitted).

End WithPool.
End AsynchPixelBufferDecoder.

(** ** PixelBufferDecoder *)

Module PixelBufferDecoder.

(** The members that a plain object such as [decoderScripts] (it is
    created by [{}]) inherits from [Object.prototype]: those of the
    language, with the legacy ones of the browsers. *)
Definition objectPrototype : list string :=
  ["constructor"; "hasOwnProperty"; "isPrototypeOf"; "propertyIsEnumerable";
   "toLocaleString"; "toString"; "valueOf"; "__proto__";
   "__defineGetter__"; "__defineSetter__"; "__lookupGetter__";
   "__lookupSetter__"].

(** [decoderScripts[algoName]], [None] when it is [undefined]: the entry
    of the object itself if it has one, else the inherited member of that
    name if there is one.  The entries of the object itself are script
    paths. *)
Definition decoderScript (decoderScripts : gmap string string)
    (algoName : string) : option Script :=
  match decoderScripts !! algoName with
  | Some path => Some (ScriptPath path)
  | None =>
      if existsb (String.eqb algoName) objectPrototype
      then Some (Inherited algoName)
      else None
  end.

Section WithPool.
Variable E : Engines.
Variable T : ThreadPool.

(** The object held by the private field [#pixelDecoder]. *)
Inductive PixelDecoder :=
| Asynch (a : AsynchPixelBufferDecoder.t T)
| Synch (s : SynchPixelBufferDecoder.t).

Record t := mk {
  algoName : string;
  numberOfData : Z;
  pixelDecoder : PixelDecoder;
  areCallbacksSet : bool;
  callbacks : Callbacks
}.

(** [new PixelBufferDecoder(algoName, numberOfData)], given the entries of
    the exported object [decoderScripts] at that moment.  The object is
    always defined, so the test of the constructor comes down to whether
    [decoderScripts[algoName]] is [undefined]. *)
Definition new (decoderScripts : gmap string string)
    (algoName : string) (numberOfData : Z) : t :=
  match decoderScript decoderScripts algoName with
  | Some script =>
      mk algoName numberOfData
        (Asynch (AsynchPixelBufferDecoder.new T script numberOfData))
        false defaultCallbacks
  | None =>
      mk algoName numberOfData
        (Synch (SynchPixelBufferDecoder.new algoName numberOfData))
        false defaultCallbacks
  end.

(** [decoder.<slot> = h], an assignment by the owner of the decoder. *)
Definition assign (s : Slot) (h : Handler) (d : t) : t :=
  mk (algoName d) (numberOfData d) (pixelDecoder d) (areCallbacksSet d)
    (setCallback s h (callbacks d)).

Definition delegateCallbacks (p : PixelDecoder) : Callbacks :=
  match p with
  | Asynch a => AsynchPixelBufferDecoder.callbacks T a
  | Synch s => SynchPixelBufferDecoder.callbacks s
  end.

Definition setDelegateCallbacks (c : Callbacks) (p : PixelDecoder) : PixelDecoder :=
  match p with
  | Asynch a => Asynch (AsynchPixelBufferDecoder.setCallbacks T c a)
  | Synch s => Synch (SynchPixelBufferDecoder.setCallbacks c s)
  end.

(** The guarded block at the head of [decode]: the six assignments
    [this.#pixelDecoder.on... = this.on...]. *)
Definition setCallbacks (d : t) : t :=
  if negb (areCallbacksSet d) then
    mk (algoName d) (numberOfData d)
      (setDelegateCallbacks
         (mkCallbacks
            (cb_ondecodestart (callbacks d))
            (cb_ondecodeditem (callbacks d))
            (cb_ondecoded (callbacks d))
            (cb_ondecodeend (callbacks d))
            (cb_onerror (callbacks d))
            (cb_onabort (callbacks d)))
         (pixelDecoder d))
      true (callbacks d)
  else d.

(** [this.#pixelDecoder.decode(pixelBuffer, pixelMeta, info)]. *)
Definition delegateDecode (p : PixelDecoder)
    (pixelBuffer : list Z) (pixelMeta : PixelMeta) (info : Info)
    : PixelDecoder * list Call * Completion :=
  match p with
  | Asynch a =>
      let '(a, calls, c) :=
        AsynchPixelBufferDecoder.decode T a pixelBuffer pixelMeta info in
      (Asynch a, calls, c)
  | Synch s =>
      let '(s, calls, c) :=
        SynchPixelBufferDecoder.decode E s pixelBuffer pixelMeta info in
      (Synch s, calls, c)
  end.

(** [this.#pixelDecoder.abort()]. *)
Definition delegateAbort (p : PixelDecoder)
    : PixelDecoder * list Call * Completion :=
  match p with
  | Asynch a =>
      let '(a, calls, c) := AsynchPixelBufferDecoder.abort T a in
      (Asynch a, calls, c)
  | Synch s =>
      let '(s, calls, c) := SynchPixelBufferDecoder.abort s in
      (Synch s, calls, c)
  end.

(** [decode(pixelBuffer, pixelMeta, info)]. *)
Definition decode (d : t)
    (pixelBuffer : list Z) (pixelMeta : PixelMeta) (info : Info)
    : t * list Call * Completion :=
  let d := setCallbacks d in
  let '(p, calls, c) := delegateDecode (pixelDecoder d) pixelBuffer pixelMeta info in
  (mk (algoName d) (numberOfData d) p (areCallbacksSet d) (callbacks d), calls, c).

(** [abort()]. *)
Definition abort (d : t) : t * list Call * Completion :=
  let '(p, calls, c) := delegateAbort (pixelDecoder d) in
  (mk (algoName d) (numberOfData d) p (areCallbacksSet d) (callbacks d), calls, c).

(** A worker of the delegate's pool reports back; nothing of the kind
    exists in synchronous mode. *)
Definition signal (d : t) (m : WorkerSignal T) : t * list Call :=
  match pixelDecoder d with
  | Asynch a =>
      let '(a, calls) := AsynchPixelBufferDecoder.signal T a m in
      (mk (algoName d) (numberOfData d) (Asynch a) (areCallbacksSet d)
         (callbacks d), calls)
  | Synch _ => (d, [])
  end.

End WithPool.
End PixelBufferDecoder.

(** ** Runs *)

(** The arguments of one [decode] call. *)
Record DecodeArgs := mkDecodeArgs {
  arg_pixelBuffer : list Z;
  arg_pixelMeta : PixelMeta;
  arg_info : Info
}.

(** A batch on the synchronous decoder: the calls one after the other,
    and for each its invocations and its completion. *)
Fixpoint decodeAll (E : Engines) (d : SynchPixelBufferDecoder.t)
    (calls : list DecodeArgs)
    : SynchPixelBufferDecoder.t * list (list Call * Completion) :=
  match calls with
  | [] => (d, [])
  | a :: calls =>
      let '(d, tr, c) :=
        SynchPixelBufferDecoder.decode E d
          (arg_pixelBuffer a) (arg_pixelMeta a) (arg_info a) in
      let '(d, rs) := decodeAll E d calls in
      (d, (tr, c) :: rs)
  end.

(** What can happen around one [PixelBufferDecoder]: its owner calls a
    method or assigns a callback, the host changes the script registry, a
    worker reports back. *)
Inductive Op (T : ThreadPool) :=
| OpDecode (a : DecodeArgs)
| OpAbort
| OpAssign (s : Slot) (h : Handler)
| OpRegister (algoName : string) (script : string)
| OpUnregister (algoName : string)
| OpSignal (m : WorkerSignal T).
Arguments OpDecode {T} a.
Arguments OpAbort {T}.
Arguments OpAssign {T} s h.
Arguments OpRegister {T} algoName script.
Arguments OpUnregister {T} algoName.
Arguments OpSignal {T} m.

Record World (T : ThreadPool) := mkWorld {
  decoderScripts : gmap string string;
  decoder : PixelBufferDecoder.t T
}.
Arguments mkWorld {T} decoderScripts decoder.
Arguments decoderScripts {T} w.
Arguments decoder {T} w.

Definition step (E : Engines) {T : ThreadPool} (w : World T) (o : Op T)
    : World T * list Call :=
  match o with
  | OpDecode a =>
      let '(d, calls, _) :=
        PixelBufferDecoder.decode E T (decoder w)
          (arg_pixelBuffer a) (arg_pixelMeta a) (arg_info a) in
      (mkWorld (decoderScripts w) d, calls)
  | OpAbort =>
      let '(d, calls, _) := PixelBufferDecoder.abort T (decoder w) in
      (mkWorld (decoderScripts w) d, calls)
  | OpAssign s h =>
      (mkWorld (decoderScripts w) (PixelBufferDecoder.assign T s h (decoder w)), [])
  | OpRegister k script =>
      (mkWorld (<[k := script]> (decoderScripts w)) (decoder w), [])
  | OpUnregister k =>
      (mkWorld (delete k (decoderScripts w)) (decoder w), [])
  | OpSignal m =>
      let '(d, calls) := PixelBufferDecoder.signal T (decoder w) m in
      (mkWorld (decoderScripts w) d, calls)
  end.

Fixpoint run (E : Engines) {T : ThreadPool} (w : World T) (ops : list (Op T))
    : World T * list Call :=
  match ops with
  | [] => (w, [])
  | o :: ops =>
      let '(w, calls) := step E w o in
      let '(w, calls') := run E w ops in
      (w, calls ++ calls')
  end.

Definition isDecode {T : ThreadPool} (o : Op T) : bool :=
  match o with
  | OpDecode _ => true
  | _ => false
  end.

(** The decoder callback a pool callback is wired to by
    [AsynchPixelBufferDecoder.decode]. *)
Definition wiredTo (s : PoolSlot) : Slot :=
  match s with
  | onworkstart => ondecodestart
  | onworkitem => ondecodeditem
  | onwork => ondecoded
  | onworkend => ondecodeend
  | pool_onerror => onerror
  | pool_onabort => onabort
  end.

Definition callHandler (c : Call) : Handler :=
  match c with
  | Invoke _ h _ => h
  | InvokePool _ h _ => h
  end.

Definition callSlot (c : Call) : Slot :=
  match c with
  | Invoke s _ _ => s
  | InvokePool s _ _ => wiredTo s
  end.

(** The invocations of one decoder callback in a trace. *)
Definition isSlot (s : Slot) (c : Call) : bool :=
  match c, s with
  | Invoke ondecodestart _ _, ondecodestart
  | Invoke ondecodeditem _ _, ondecodeditem
  | Invoke ondecoded _ _, ondecoded
  | Invoke ondecodeend _ _, ondecodeend
  | Invoke onerror _ _, onerror
  | Invoke onabort _ _, onabort => true
  | _, _ => false
  end.

Definition countSlot (s : Slot) (tr : list Call) : nat :=
  length (List.filter (isSlot s) tr).

(** ** FilesLoader: the load and load-end counters *)

Module FilesLoader.

(** An input file, a launched [FileReader] and the running data loader are
    only stored by the methods below. *)
Record File := mkFile { file_name : string }.
Definition Reader := nat.
Definition Loader := nat.

(** The callbacks the counting methods invoke. *)
Inductive Slot := onloaditem | onload | onloadend.

Inductive Event :=
| SourceEvent (source : list File)
| LoadEvent (detail : string).

Inductive Call :=
| Invoke (s : Slot) (h : Handler) (e : Event).

Definition TypeError (message : string) : Exn := mkExn "TypeError" message.

Record t := mk {
  inputData : option (list File);
  readers : list Reader;
  runningLoader : option Loader;
  nLoad : Z;
  nLoadend : Z;
  cb_onloaditem : Handler;
  cb_onload : Handler;
  cb_onloadend : Handler
}.

(** [new FilesLoader()]: [#inputData] and [#runningLoader] are [null]. *)
Definition new : t := mk None [] None 0 0 noop noop noop.

(** [#clearStoredReaders()]. *)
Definition clearStoredReaders (l : t) : t :=
  mk (inputData l) [] (runningLoader l) (nLoad l) (nLoadend l)
    (cb_onloaditem l) (cb_onload l) (cb_onloadend l).

(** [#clearStoredLoader()]. *)
Definition clearStoredLoader (l : t) : t :=
  mk (inputData l) (readers l) None (nLoad l) (nLoadend l)
    (cb_onloaditem l) (cb_onload l) (cb_onloadend l).

(** [#storeInputData(data)]. *)
Definition storeInputData (data : list File) (l : t) : t :=
  let l := mk (Some data) (readers l) (runningLoader l) 0 0
             (cb_onloaditem l) (cb_onload l) (cb_onloadend l) in
  clearStoredLoader (clearStoredReaders l).

(** [#addLoad(_event)]. *)
Definition addLoad (l : t) : t * list Call * Completion :=
  let l := mk (inputData l) (readers l) (runningLoader l) (nLoad l + 1)
             (nLoadend l) (cb_onloaditem l) (cb_onload l) (cb_onloadend l) in
  match inputData l with
  | None => (l, [], Thrown (TypeError "Cannot read properties of null"))
  | Some data =>
      if nLoad l =? Z.of_nat (length data) then
        (l, [Invoke onload (cb_onload l) (SourceEvent data)], Returned)
      else (l, [], Returned)
  end.

(** [#addLoadItem(event)]. *)
Definition addLoadItem (event : Event) (l : t) : t * list Call * Completion :=
  let '(l', calls, c) := addLoad l in
  (l', Invoke onloaditem (cb_onloaditem l) event :: calls, c).

(** [#addLoadend(_event)]. *)
Definition addLoadend (l : t) : t * list Call * Completion :=
  let l := mk (inputData l) (readers l) (runningLoader l) (nLoad l)
             (nLoadend l + 1) (cb_onloaditem l) (cb_onload l) (cb_onloadend l) in
  match inputData l with
  | None => (l, [], Thrown (TypeError "Cannot read properties of null"))
  | Some data =>
      if nLoadend l =? 2 * Z.of_nat (length data) then
        (l, [Invoke onloadend (cb_onloadend l) (SourceEvent data)], Returned)
      else (l, [], Returned)
  end.

(** [n] load-end events in a row, from the readers and the loader. *)
Fixpoint addLoadends (n : nat) (l : t) : t * list Call :=
  match n with
  | O => (l, [])
  | S n =>
      let '(l, calls, _) := addLoadend l in
      let '(l, calls') := addLoadends n l in
      (l, calls ++ calls')
  end.

End FilesLoader.

(** ** Tags *)

(** A JavaScript string is a sequence of code units; the strings below are
    those whose code units are below 256, one character each.  [None]
    stands for [undefined] or [null] where a function tests for them. *)
Module Tag.

Import Stdlib.Strings.Ascii.

Record t := mk { group : string; element : string }.

(** [new Tag(group, element)]. *)
Definition new (group element : option string) : Result t :=
  match group with
  | None | Some EmptyString => Throw (Error "Cannot create tag with no group.")
  | Some g =>
      if negb (Nat.eqb (String.length g) 4) then
        Throw (Error "Cannot create tag with badly sized group.")
      else
        match element with
        | None | Some EmptyString =>
            Throw (Error "Cannot create tag with no element.")
        | Some e =>
            if negb (Nat.eqb (String.length e) 4) then
              Throw (Error "Cannot create tag with badly sized element.")
            else Ok (mk g e)
        end
  end.

Definition getGroup (tag : t) : string := group tag.
Definition getElement (tag : t) : string := element tag.

(** [equals(rhs)]. *)
Definition equals (tag : t) (rhs : option t) : bool :=
  match rhs with
  | None => false
  | Some rhs =>
      String.eqb (getGroup tag) (getGroup rhs)
      && String.eqb (getElement tag) (getElement rhs)
  end.

(** [getKey()]. *)
Definition getKey (tag : t) : string :=
  String.append (getGroup tag) (getElement tag).

(** [isWithVR()]. *)
Definition isWithVR (tag : t) : bool :=
  let element := getElement tag in
  negb (String.eqb (getGroup tag) "FFFE"
        && (String.eqb element "E000" || String.eqb element "E00D"
            || String.eqb element "E0DD")).

(** *** [parseInt(string, 16)]

    A number is an integer or [NaN] ([None]).  The integers met here come
    from strings of four characters, far below the precision of a
    double. *)

Definition codeUnit (c : Ascii.ascii) : Z := Z.of_N (Ascii.N_of_ascii c).

(** White space and line terminators, as skipped by [parseInt]. *)
Definition isWhiteSpace (c : Ascii.ascii) : bool :=
  let n := codeUnit c in
  ((9 <=? n) && (n <=? 13)) || (n =? 32) || (n =? 160).

(** The value of a character as a digit of radix 16. *)
Definition hexDigit (c : Ascii.ascii) : option Z :=
  let n := codeUnit c in
  if (48 <=? n) && (n <=? 57) then Some (n - 48)
  else if (97 <=? n) && (n <=? 102) then Some (n - 87)
  else if (65 <=? n) && (n <=? 70) then Some (n - 55)
  else None.

Fixpoint trimStart (s : string) : string :=
  match s with
  | String c s' => if isWhiteSpace c then trimStart s' else s
  | EmptyString => EmptyString
  end.

(** The value of the longest prefix of [s] made of hexadecimal digits,
    read after the digits that gave [acc]. *)
Fixpoint hexValue (s : string) (acc : Z) : Z :=
  match s with
  | String c s' =>
      match hexDigit c with
      | Some d => hexValue s' (16 * acc + d)
      | None => acc
      end
  | EmptyString => acc
  end.

Definition parseInt16 (s : string) : option Z :=
  let s := trimStart s in
  let '(sign, s) :=
    match s with
    | String "-"%char s' => (-1, s')
    | String "+"%char s' => (1, s')
    | _ => (1, s)
    end in
  let s :=
    match s with
    | String "0"%char (String "x"%char s') => s'
    | String "0"%char (String "X"%char s') => s'
    | _ => s
    end in
  match s with
  | String c _ =>
      match hexDigit c with
      | Some _ => Some (sign * hexValue s 0)
      | None => None
      end
  | EmptyString => None
  end.

(** [isPrivate()]: [groupNumber % 2 === 1], the remainder having the sign
    of the dividend. *)
Definition isPrivate (tag : t) : bool :=
  match parseInt16 (getGroup tag) with
  | Some groupNumber => Z.rem groupNumber 2 =? 1
  | None => false
  end.

(** [a - b] on numbers. *)
Definition minus (a b : option Z) : option Z :=
  match a, b with
  | Some a, Some b => Some (a - b)
  | _, _ => None
  end.

(** [tagCompareFunction(a, b)]. *)
Definition tagCompareFunction (a b : t) : option Z :=
  let res := minus (parseInt16 (getGroup a)) (parseInt16 (getGroup b)) in
  match res with
  | Some 0 => minus (parseInt16 (getElement a)) (parseInt16 (getElement b))
  | _ => res
  end.

(** [key.substring(start, end)]. *)
Definition substring (start end_ : nat) (s : string) : string :=
  let len := String.length s in
  let a := Nat.min (Nat.min start end_) len in
  let b := Nat.min (Nat.max start end_) len in
  String.substring a (b - a) s.

(** [getTagFromKey(key)]. *)
Definition getTagFromKey (key : option string) : Result t :=
  match key with
  | None | Some EmptyString => Throw (Error "Cannot create tag with no key.")
  | Some key =>
      if negb (Nat.eqb (String.length key) 8) then
        Throw (Error "Cannot create tag with badly sized key.")
      else new (Some (substring 0 4 key)) (Some (substring 4 8 key))
  end.

(** The tag getters and their tests. *)
Definition getTransferSyntaxUIDTag : Result t := new (Some "0002") (Some "0010").
Definition getFileMetaInformationGroupLengthTag : Result t :=
  new (Some "0002") (Some "0000").
Definition getItemTag : Result t := new (Some "FFFE") (Some "E000").
Definition getItemDelimitationItemTag : Result t :=
  new (Some "FFFE") (Some "E00D").
Definition getSequenceDelimitationItemTag : Result t :=
  new (Some "FFFE") (Some "E0DD").
Definition getPixelDataTag : Result t := new (Some "7FE0") (Some "0010").

(** [tag.equals(getter())]. *)
Definition equalsGetter (getter : Result t) (tag : t) : Result bool :=
  let* rhs := getter in Ok (equals tag (Some rhs)).

Definition isFileMetaInformationGroupLengthTag : t -> Result bool :=
  equalsGetter getFileMetaInformationGroupLengthTag.
Definition isItemTag : t -> Result bool := equalsGetter getItemTag.
Definition isItemDelimitationItemTag : t -> Result bool :=
  equalsGetter getItemDelimitationItemTag.
Definition isSequenceDelimitationItemTag : t -> Result bool :=
  equalsGetter getSequenceDelimitationItemTag.
Definition isPixelDataTag : t -> Result bool := equalsGetter getPixelDataTag.

(** *** The dictionary

    The imported object [dictionary] maps a group to an object that maps
    an element to the array [[vr, multiplicity, name]].  It is given by
    its entries in the order of [Object.keys]; an object has each key
    once. *)
Record Info := mkInfo { vr : string; multiplicity : string; name : string }.

Definition Elements := list (string * Info).
Definition Dictionary := list (string * Elements).

Fixpoint property {A : Type} (key : string) (object : list (string * A)) : option A :=
  match object with
  | [] => None
  | (k, v) :: object => if String.eqb k key then Some v else property key object
  end.

(** [getInfoFromDictionary()]. *)
Definition getInfoFromDictionary (dictionary : Dictionary) (tag : t) : option Info :=
  match property (getGroup tag) dictionary with
  | Some elements => property (getElement tag) elements
  | None => None
  end.

(** [getVrFromDictionary()]. *)
Definition getVrFromDictionary (dictionary : Dictionary) (tag : t) : option string :=
  match getInfoFromDictionary dictionary tag with
  | Some info => Some (vr info)
  | None => None
  end.

(** [getNameFromDictionary()]. *)
Definition getNameFromDictionary (dictionary : Dictionary) (tag : t) : option string :=
  match getInfoFromDictionary dictionary tag with
  | Some info => Some (name info)
  | None => None
  end.

(** The inner loop of [getTagFromDictionary]: the values of [element] and
    [foundTag] when it is left. *)
Fixpoint searchElements (tagName : string) (keys1 : Elements)
    (element : option string) : option string * bool :=
  match keys1 with
  | [] => (element, false)
  | (k1, info) :: keys1 =>
      if String.eqb (name info) tagName then (Some k1, true)
      else searchElements tagName keys1 (Some k1)
  end.

(** The outer loop: the values of [group], [element] and [foundTag]. *)
Fixpoint searchGroups (tagName : string) (keys0 : Dictionary)
    (group element : option string) : option string * option string * bool :=
  match keys0 with
  | [] => (group, element, false)
  | (k0, elements) :: keys0 =>
      let '(element, foundTag) := searchElements tagName elements element in
      if foundTag then (Some k0, element, true)
      else searchGroups tagName keys0 (Some k0) element
  end.

(** [getTagFromDictionary(tagName)]; [Ok None] is [null]. *)
Definition getTagFromDictionary (dictionary : Dictionary)
    (tagName : option string) : Result (option t) :=
  match tagName with
  | None => Ok None
  | Some tagName =>
      let '(group, element, foundTag) :=
        searchGroups tagName dictionary None None in
      if foundTag then
        let* tag := new group element in Ok (Some tag)
      else Ok None
  end.

End Tag.

(** ** FilesLoader: [load] and the events that come back *)

Module FilesLoaderLoad.

Import FilesLoader.

(** The constant [fileContentTypes]. *)
Definition Text : Z := 0.
Definition ArrayBuffer : Z := 1.
Definition DataURL : Z := 2.

(** A class of the imported [loaderList], as [load] uses its instances:
    what [canLoadFile] answers (a property of the file), what [loadFileAs]
    returns, and whether the instance defines [onloaditem].  Creating the
    instances, [setOptions] and the progress handler are calls into other
    modules, taken to return. *)
Record LoaderClass := mkLoaderClass {
  canLoadFile : File -> bool;
  loadFileAs : Z;
  definesOnloaditem : bool
}.

(** What [load] does besides updating the fields: the load-start event,
    the callback it gives the running loader for its [onload] (the private
    [#addLoadItem] when the loader has no [onloaditem], [#addLoad]
    otherwise), and the reads it starts.  A reader is named by the index of
    its file, a loader by its index in [loaderList].  The other callback
    assignments are the same on every path (the loader and every reader
    get [#addLoadend] for their [onloadend]) and are not recorded. *)
Inductive Action :=
| Loadstart (h : Handler) (source : list File)
| OnloadIs (loader : Loader) (addLoadItem : bool)
| ReadAsText (reader : Reader) (file : File)
| ReadAsDataURL (reader : Reader) (file : File)
| ReadAsArrayBuffer (reader : Reader) (file : File).

(** [#storeReader(reader)]. *)
Definition storeReader (reader : Reader) (l : t) : t :=
  mk (inputData l) (readers l ++ [reader]) (runningLoader l) (nLoad l)
    (nLoadend l) (cb_onloaditem l) (cb_onload l) (cb_onloadend l).

(** [#storeLoader(loader)]. *)
Definition storeLoader (loader : Loader) (l : t) : t :=
  mk (inputData l) (readers l) (Some loader) (nLoad l) (nLoadend l)
    (cb_onloaditem l) (cb_onload l) (cb_onloadend l).

(** The search for an appropriate loader: the index and the class of the
    first one that can load [dataElement]. *)
Fixpoint findLoader (loaders : list LoaderClass) (index : nat) (dataElement : File)
    : option (Loader * LoaderClass) :=
  match loaders with
  | [] => None
  | loader :: loaders =>
      if canLoadFile loader dataElement then Some (index, loader)
      else findLoader loaders (S index) dataElement
  end.

(** The read started on a reader. *)
Definition read (loader : LoaderClass) (reader : Reader) (dataElement : File)
    : list Action :=
  if loadFileAs loader =? Text then [ReadAsText reader dataElement]
  else if loadFileAs loader =? DataURL then [ReadAsDataURL reader dataElement]
  else if loadFileAs loader =? ArrayBuffer then
    [ReadAsArrayBuffer reader dataElement]
  else [].

(** The loop on the input elements, from index [i]. *)
Fixpoint launchReaders (loader : LoaderClass) (i : nat) (data : list File) (l : t)
    : t * list Action * Completion :=
  match data with
  | [] => (l, [], Returned)
  | dataElement :: data =>
      if negb (canLoadFile loader dataElement) then
        (l, [], Thrown (Error "Input file of different type: [object File]"))
      else
        let l := storeReader i l in
        let '(l, actions, c) := launchReaders loader (S i) data l in
        (l, read loader i dataElement ++ actions, c)
  end.

(** [load(data)], the field [onloadstart] holding [onloadstart]; [None] is
    an [undefined] argument. *)
Definition load (loaderList : list LoaderClass) (onloadstart : Handler)
    (data : option (list File)) (l : t) : t * list Action * Completion :=
  match data with
  | None | Some [] => (l, [], Returned)
  | Some ((dataElement :: _) as data) =>
      let l := storeInputData data l in
      let start := Loadstart onloadstart data in
      match findLoader loaderList 0 dataElement with
      | None =>
          (l, [start],
           Thrown (Error (String.append "No loader found for file: "
                            (file_name dataElement))))
      | Some (index, loader) =>
          let l := storeLoader index l in
          let '(l, actions, c) := launchReaders loader 0 data l in
          (l, start :: OnloadIs index (negb (definesOnloaditem loader)) :: actions,
           c)
      end
  end.

(** What the running loader and the readers send back. *)
Inductive Signal :=
| LoadItem (event : Event)
| Load
| Loadend.

Definition deliver (s : Signal) (l : t) : t * list Call :=
  match s with
  | LoadItem event => fst (addLoadItem event l)
  | Load => fst (addLoad l)
  | Loadend => fst (addLoadend l)
  end.

Fixpoint deliverAll (signals : list Signal) (l : t) : t * list Call :=
  match signals with
  | [] => (l, [])
  | s :: signals =>
      let '(l, calls) := deliver s l in
      let '(l, calls') := deliverAll signals l in
      (l, calls ++ calls')
  end.

Definition isLoad (s : Signal) : bool :=
  match s with
  | Loadend => false
  | _ => true
  end.

Definition isLoadItem (s : Signal) : bool :=
  match s with
  | LoadItem _ => true
  | _ => false
  end.

Definition isLoadend (s : Signal) : bool :=
  match s with
  | Loadend => true
  | _ => false
  end.

Definition isSlot (s : Slot) (c : Call) : bool :=
  match c, s with
  | Invoke onloaditem _ _, onloaditem
  | Invoke onload _ _, onload
  | Invoke onloadend _ _, onloadend => true
  | _, _ => false
  end.

Definition countSlot (s : Slot) (tr : list Call) : nat :=
  length (List.filter (isSlot s) tr).

End FilesLoaderLoad.

(** ** Concrete hosts, used to run the model *)

(** Calling an engine that was never loaded. *)
Definition noEngine {A B : Type} (_ : A) : Result B :=
  Throw (mkExn "ReferenceError" "engine is not defined").

(** A page that loaded none of the three pluggable engines.  Its RLE
    decoder stands for the built-in one: it fails on an empty buffer and
    otherwise hands back the bytes as an unsigned 8-bit array. *)
Definition bareHost : Engines :=
  mkEngines false false false
    (fun _ _ _ _ => Throw (mkExn "ReferenceError" "jpeg is not defined"))
    noEngine noEngine
    (fun pixelBuffer _ _ _ _ _ =>
       match pixelBuffer with
       | [] => Throw (Error "RLE: empty buffer")
       | _ => Ok (mkTypedArray Uint8Array pixelBuffer)
       end).

(** A page that loaded the three engines; the lossless one hands back the
    bytes it was given. *)
Definition fullHost : Engines :=
  mkEngines true true true
    (fun buf _ _ _ => Ok buf)
    (fun pixelBuffer => Ok (mkTypedArray Uint8Array pixelBuffer))
    (fun pixelBuffer => Ok (mkTypedArray Int16Array pixelBuffer))
    (fun pixelBuffer _ _ _ _ _ => Ok (mkTypedArray Uint8Array pixelBuffer)).

(** A pool that keeps the submitted tasks in a queue: it emits the
    work-start event with the first task, the item event (and, with the
    last task, the work and work-end events) when a worker reports, and
    the abort and work-end events when aborted. *)
Definition queuePool : ThreadPool :=
  mkThreadPool (list WorkerTask) unit
    (fun _ => [])
    (fun q task =>
       (q ++ [task],
        match q with
        | [] => [(onworkstart, WorkEvent "work-start")]
        | _ => []
        end,
        Returned))
    (fun _ =>
       ([], [(pool_onabort, WorkEvent "work-abort");
             (onworkend, WorkEvent "work-end")], Returned))
    (fun q _ =>
       match q with
       | [] => ([], [])
       | [task] =>
           ([], [(onworkitem, ItemEvent [None] (itemNumber (task_info task)));
                 (onwork, WorkEvent "work");
                 (onworkend, WorkEvent "work-end")])
       | task :: q =>
           (q, [(onworkitem, ItemEvent [None] (itemNumber (task_info task)))])
       end).

Definition meta8 : PixelMeta := mkPixelMeta 8 false 4 1 0.
Definition meta16s : PixelMeta := mkPixelMeta 16 true 4 1 0.

Definition frame (n : Z) : DecodeArgs :=
  mkDecodeArgs [n; n + 1; n + 2; n + 3] meta8 (mkInfo n).

Definition userCallbacks : Callbacks :=
  mkCallbacks (handler 1) (handler 2) (handler 3) (handler 4) (handler 5)
    (handler 6).

(** ** Vocabulary of the statements *)

(** The per-item invocation of a call that produced [b]. *)
Definition itemCall (cbs : Callbacks) (b : option TypedArray) (a : DecodeArgs) : Call :=
  Invoke ondecodeditem (cb_ondecodeditem cbs)
    (ItemEvent [b] (itemNumber (arg_info a))).

(** The all-decoded invocation followed by the decode-end one. *)
Definition endCalls (cbs : Callbacks) : list Call :=
  [Invoke ondecoded (cb_ondecoded cbs) EmptyEvent;
   Invoke ondecodeend (cb_ondecodeend cbs) EmptyEvent].

(** A trace contains an invocation through the decoder field [s]. *)
Definition emits (s : Slot) (tr : list Call) : Prop :=
  exists h e, In (Invoke s h e) tr.

Definition threw (c : Completion) : Prop :=
  exists e, c = Thrown e.

(** The names of the dispatch table of the synchronous decoder. *)
Definition dispatchTable : list string :=
  ["jpeg-lossless"; "jpeg-baseline"; "jpeg2000"; "rle"].

(** The three components of a method's result. *)
Definition stateOf {S : Type} (r : S * list Call * Completion) : S := fst (fst r).
Definition traceOf {S : Type} (r : S * list Call * Completion) : list Call := snd (fst r).
Definition completionOf {S : Type} (r : S * list Call * Completion) : Completion := snd r.

(** The pool callbacks after the six assignments of
    [AsynchPixelBufferDecoder.decode], for a decoder whose fields hold [c]. *)
Definition wire (c : Callbacks) : PoolCallbacks :=
  mkPoolCallbacks (cb_ondecodestart c) (cb_ondecodeditem c) (cb_ondecoded c)
    (cb_ondecodeend c) (cb_onerror c) (cb_onabort c).

(** A facade none of whose [decode] has run yet: the guard is open and the
    delegate (and its pool) still hold the prototype callbacks. *)
Definition pristine {T : ThreadPool} (d : PixelBufferDecoder.t T) : Prop :=
  PixelBufferDecoder.areCallbacksSet T d = false /\
  match PixelBufferDecoder.pixelDecoder T d with
  | PixelBufferDecoder.Asynch _ a =>
      AsynchPixelBufferDecoder.areCallbacksSet T a = false /\
      AsynchPixelBufferDecoder.callbacks T a = defaultCallbacks /\
      AsynchPixelBufferDecoder.poolCallbacks T a = defaultPoolCallbacks
  | PixelBufferDecoder.Synch _ s =>
      SynchPixelBufferDecoder.callbacks s = defaultCallbacks
  end.

(** A facade whose delegate (and its pool) hold the callbacks [c], the
    guards being closed. *)
Definition bound {T : ThreadPool} (c : Callbacks) (d : PixelBufferDecoder.t T) : Prop :=
  PixelBufferDecoder.areCallbacksSet T d = true /\
  match PixelBufferDecoder.pixelDecoder T d with
  | PixelBufferDecoder.Asynch _ a =>
      AsynchPixelBufferDecoder.areCallbacksSet T a = true /\
      AsynchPixelBufferDecoder.callbacks T a = c /\
      AsynchPixelBufferDecoder.poolCallbacks T a = wire c
  | PixelBufferDecoder.Synch _ s =>
      SynchPixelBufferDecoder.callbacks s = c
  end.

(** The delegate a facade was given for the value [entry] of
    [decoderScripts[algoName]]. *)
Definition routedAs {T : ThreadPool} (entry : option Script) (algo : string)
    (n : Z) (p : PixelBufferDecoder.PixelDecoder T) : Prop :=
  match entry, p with
  | Some script, PixelBufferDecoder.Asynch _ a =>
      AsynchPixelBufferDecoder.script T a = script
  | None, PixelBufferDecoder.Synch _ s =>
      SynchPixelBufferDecoder.algoName s = algo /\
      SynchPixelBufferDecoder.numberOfData s = n
  | _, _ => False
  end.

(** An invocation made with the function that [c] holds for its slot. *)
Definition firedFrom (c : Callbacks) (call : Call) : Prop :=
  callHandler call = getCallback (callSlot call) c.

(** A name of four hexadecimal digits, with the digits' values. *)
Definition hexDigits4 (s : string) : option (Z * Z * Z * Z) :=
  match s with
  | String c1 (String c2 (String c3 (String c4 EmptyString))) =>
      match Tag.hexDigit c1, Tag.hexDigit c2, Tag.hexDigit c3, Tag.hexDigit c4 with
      | Some d1, Some d2, Some d3, Some d4 => Some (d1, d2, d3, d4)
      | _, _, _, _ => None
      end
  | _ => None
  end.

(** A tag as the constructor makes them. *)
Definition wellSized (tag : Tag.t) : Prop :=
  String.length (Tag.group tag) = 4%nat /\ String.length (Tag.element tag) = 4%nat.

(** A tag of the standard: group and element of four hexadecimal digits. *)
Definition hexTag (tag : Tag.t) : Prop :=
  is_Some (hexDigits4 (Tag.group tag)) /\ is_Some (hexDigits4 (Tag.element tag)).

(** An object has each key once. *)
Definition uniqueKeys (dictionary : Tag.Dictionary) : Prop :=
  NoDup (map fst dictionary) /\
  Forall (fun entry => NoDup (map fst (snd entry))) dictionary.

(** A dictionary entry of that name. *)
Definition named (dictionary : Tag.Dictionary) (tagName : string) : Prop :=
  exists group elements element info,
    In (group, elements) dictionary /\ In (element, info) elements /\
    Tag.name info = tagName.

(** A small dictionary and list of loaders, to run the model. *)
Definition sampleDictionary : Tag.Dictionary :=
  [("0002", [("0000", Tag.mkInfo "UL" "1" "FileMetaInformationGroupLength");
             ("0010", Tag.mkInfo "UI" "1" "TransferSyntaxUID")]);
   ("7FE0", [("0010", Tag.mkInfo "ox" "1" "PixelData")])].

Definition hasSuffix (suffix : string) (file : FilesLoader.File) : bool :=
  let name := FilesLoader.file_name file in
  String.eqb
    (String.substring (String.length name - String.length suffix)
       (String.length suffix) name)
    suffix.

Definition sampleLoaders : list FilesLoaderLoad.LoaderClass :=
  [FilesLoaderLoad.mkLoaderClass (hasSuffix ".dcm") FilesLoaderLoad.ArrayBuffer true;
   FilesLoaderLoad.mkLoaderClass (hasSuffix ".json") FilesLoaderLoad.Text false].

(** The loader [l] with other stored readers and running loader. *)
Definition withStored (readers : list FilesLoader.Reader)
    (runningLoader : option FilesLoader.Loader) (l : FilesLoader.t)
    : FilesLoader.t :=
  FilesLoader.mk (FilesLoader.inputData l) readers runningLoader
    (FilesLoader.nLoad l) (FilesLoader.nLoadend l)
    (FilesLoader.cb_onloaditem l) (FilesLoader.cb_onload l)
    (FilesLoader.cb_onloadend l).

(** The reads started for the files [data], the first of which has the
    index [i]. *)
Definition reads (loader : FilesLoaderLoad.LoaderClass) (i : nat)
    (data : list FilesLoader.File) : list FilesLoaderLoad.Action :=
  concat (imap (fun j file => FilesLoaderLoad.read loader (i + j)%nat file) data).

(** The number of signals of a kind. *)
Definition signalCount (kind : FilesLoaderLoad.Signal -> bool)
    (signals : list FilesLoaderLoad.Signal) : Z :=
  Z.of_nat (length (List.filter kind signals)).

(** Whether the dispatch of a call returns (rather than throws). *)
Definition returns (E : Engines) (algo : string) (a : DecodeArgs) : bool :=
  match SynchPixelBufferDecoder.decodedBuffer E algo
          (arg_pixelBuffer a) (arg_pixelMeta a) with
  | Ok _ => true
  | Throw _ => false
  end.

(** ** The synchronous decoder *)

Section Synch.
Variable E : Engines.

Import SynchPixelBufferDecoder.

Lemma synch_decode_state d pb pm info :
  stateOf (decode E d pb pm info)
  = mk (algoName d) (numberOfData d) (decodeCount d + 1) (callbacks d).
Proof.
  unfold decode, stateOf; cbn.
  destruct (decodedBuffer E (algoName d) pb pm); cbn; [|reflexivity].
  destruct (decodeCount d + 1 =? numberOfData d); reflexivity.
Qed.

Lemma synch_decode_throw d pb pm info e :
  decodedBuffer E (algoName d) pb pm = Throw e ->
  decode E d pb pm info
  = (mk (algoName d) (numberOfData d) (decodeCount d + 1) (callbacks d),
     [], Thrown e).
Proof. intros H. unfold decode; cbn. rewrite H. reflexivity. Qed.

Lemma synch_decode_ok d pb pm info b :
  decodedBuffer E (algoName d) pb pm = Ok b ->
  decode E d pb pm info
  = (mk (algoName d) (numberOfData d) (decodeCount d + 1) (callbacks d),
     itemCall (callbacks d) b (mkDecodeArgs pb pm info)
       :: (if decodeCount d + 1 =? numberOfData d
           then endCalls (callbacks d) else []),
     Returned).
Proof.
  intros H. unfold decode; cbn. rewrite H.
  destruct (decodeCount d + 1 =? numberOfData d); reflexivity.
Qed.

Lemma synch_decode_returned d pb pm info :
  completionOf (decode E d pb pm info) = Returned ->
  exists b, decodedBuffer E (algoName d) pb pm = Ok b.
Proof.
  destruct (decodedBuffer E (algoName d) pb pm) as [b|e] eqn:H.
  - eauto.
  - rewrite (synch_decode_throw _ _ _ _ _ H). discriminate.
Qed.

(** The [i]-th call of a batch runs on the fields left by the [i] calls
    before it: only the count has moved. *)
Lemma decodeAll_lookup algo K cbs calls :
  forall c i a,
    calls !! i = Some a ->
    snd (decodeAll E (mk algo K c cbs) calls) !! i
    = Some (let r := decode E (mk algo K (c + Z.of_nat i) cbs)
                       (arg_pixelBuffer a) (arg_pixelMeta a) (arg_info a) in
            (traceOf r, completionOf r)).
Proof.
  induction calls as [|a0 calls IH]; intros c i a Hi; [discriminate|].
  cbn [decodeAll].
  pose proof (synch_decode_state (mk algo K c cbs) (arg_pixelBuffer a0)
                (arg_pixelMeta a0) (arg_info a0)) as Hs.
  destruct (decode E (mk algo K c cbs) _ _ _) as [[d1 tr1] c1] eqn:Hd.
  unfold stateOf in Hs; cbn in Hs; subst d1.
  specialize (IH (c + 1)).
  destruct (decodeAll E (mk algo K (c + 1) cbs) calls) as [d2 rs] eqn:Hrest.
  destruct i as [|i]; cbn in Hi.
  - injection Hi as <-. cbn. rewrite Z.add_0_r, Hd. reflexivity.
  - specialize (IH i a Hi). cbn [snd] in IH |- *.
    change (((tr1, c1) :: rs) !! S i) with (rs !! i).
    rewrite IH. replace (c + Z.of_nat (S i)) with (c + 1 + Z.of_nat i) by lia.
    reflexivity.
Qed.

Lemma decodeAll_length d calls :
  length (snd (decodeAll E d calls)) = length calls.
Proof.
  revert d; induction calls as [|a calls IH]; intros d; [reflexivity|].
  cbn [decodeAll].
  destruct (decode E d _ _ _) as [[d1 tr1] c1].
  specialize (IH d1). destruct (decodeAll E d1 calls). cbn in *. lia.
Qed.

Lemma decodeAll_count d calls :
  decodeCount (fst (decodeAll E d calls))
  = decodeCount d + Z.of_nat (length calls).
Proof.
  revert d; induction calls as [|a calls IH]; intros d; cbn [decodeAll].
  - cbn. lia.
  - pose proof (synch_decode_state d (arg_pixelBuffer a) (arg_pixelMeta a)
                  (arg_info a)) as Hs.
    destruct (decode E d _ _ _) as [[d1 tr1] c1].
    unfold stateOf in Hs; cbn in Hs.
    specialize (IH d1). destruct (decodeAll E d1 calls) as [d2 rs].
    cbn in *. rewrite IH, Hs. cbn. lia.
Qed.

End Synch.

Section SynchBatch.
Variable E : Engines.

Import SynchPixelBufferDecoder.

Lemma countSlot_app s tr1 tr2 :
  countSlot s (tr1 ++ tr2) = (countSlot s tr1 + countSlot s tr2)%nat.
Proof. unfold countSlot. rewrite List.filter_app, length_app. reflexivity. Qed.

Lemma countSlot_items cbs s bufs calls :
  countSlot s (zip_with (itemCall cbs) bufs calls)
  = match s with
    | ondecodeditem => length (zip_with (itemCall cbs) bufs calls)
    | _ => O
    end.
Proof.
  revert calls; induction bufs as [|b bufs IH]; intros [|a calls];
    try (destruct s; reflexivity).
  specialize (IH calls). unfold countSlot in *. cbn.
  destruct s; cbn; auto.
Qed.

(** A batch that runs to the expected total without a throw: the items,
    then the two closing invocations. *)
Lemma batch_trace algo K cbs calls :
  forall c,
    calls <> [] ->
    c + Z.of_nat (length calls) = K ->
    Forall (fun r => snd r = Returned)
      (snd (decodeAll E (mk algo K c cbs) calls)) ->
    exists bufs : list (option TypedArray),
      length bufs = length calls /\
      (forall i a, calls !! i = Some a ->
         exists b, bufs !! i = Some b /\
           decodedBuffer E algo (arg_pixelBuffer a) (arg_pixelMeta a) = Ok b) /\
      concat (map fst (snd (decodeAll E (mk algo K c cbs) calls)))
      = zip_with (itemCall cbs) bufs calls ++ endCalls cbs.
Proof.
  induction calls as [|a calls IH]; intros c Hne Hlen Hall; [congruence|].
  cbn [decodeAll] in Hall |- *.
  destruct (decodedBuffer E algo (arg_pixelBuffer a) (arg_pixelMeta a))
    as [b|e] eqn:Hb.
  2:{ rewrite (synch_decode_throw E (mk algo K c cbs) _ _ (arg_info a) e Hb) in Hall.
      destruct (decodeAll E _ calls). cbn in Hall.
      apply Forall_cons in Hall as [Hc _]. discriminate. }
  rewrite (synch_decode_ok E (mk algo K c cbs) _ _ (arg_info a) b Hb) in Hall |- *.
  cbn [algoName numberOfData decodeCount callbacks] in Hall |- *.
  destruct calls as [|a' calls].
  - exists [b]. cbn in Hlen |- *.
    replace (c + 1 =? K) with true by (symmetry; apply Z.eqb_eq; lia).
    split; [reflexivity|]. split.
    + intros [|i] a0 Hi; [|discriminate]. injection Hi as <-. eauto.
    + destruct a; reflexivity.
  - specialize (IH (c + 1)).
    destruct (decodeAll E (mk algo K (c + 1) cbs) (a' :: calls)) as [d2 rs].
    cbn [snd] in Hall, IH |- *.
    apply Forall_cons in Hall as [_ Hall].
    destruct IH as (bufs & Hl & Hbufs & Htr); [congruence| |assumption|].
    { cbn [length] in Hlen |- *. lia. }
    exists (b :: bufs). split; [cbn [length] in Hl |- *; lia|]. split.
    + intros [|i] a0 Hi.
      * injection Hi as <-. eauto.
      * apply (Hbufs i a0 Hi).
    + replace (c + 1 =? K) with false
        by (symmetry; apply Z.eqb_neq; cbn [length] in Hlen; lia).
      cbn [map fst concat]. rewrite Htr. destruct a; reflexivity.
Qed.

End SynchBatch.

(** C1.  A batch of size [K] on a new synchronous decoder, every call of
    which returns: the [i]-th call invokes the per-item callback once, with
    the buffer it decoded and the index it was given, and the call that
    brings the count to the expected total [K] (the last one, and no
    other) goes on with the all-decoded and then the decode-end callback.
    The whole trace is the [K] per-item invocations, one all-decoded, one
    decode-end, in that order. *)
Theorem synch_batch_events (E : Engines) (algo : string) (K : Z)
    (cbs : Callbacks) (calls : list DecodeArgs) :
  0 < K ->
  Z.of_nat (length calls) = K ->
  let d0 := SynchPixelBufferDecoder.setCallbacks cbs
              (SynchPixelBufferDecoder.new algo K) in
  let results := snd (decodeAll E d0 calls) in
  let trace := concat (map fst results) in
  Forall (fun r => snd r = Returned) results ->
  exists bufs : list (option TypedArray),
    length bufs = length calls /\
    (forall i a, calls !! i = Some a ->
       exists b, bufs !! i = Some b /\
         SynchPixelBufferDecoder.decodedBuffer E algo
           (arg_pixelBuffer a) (arg_pixelMeta a) = Ok b /\
         results !! i
         = Some (itemCall cbs b a
                   :: (if Z.of_nat (S i) =? K then endCalls cbs else []),
                 Returned)) /\
    trace = zip_with (itemCall cbs) bufs calls ++ endCalls cbs /\
    countSlot ondecodeditem trace = length calls /\
    countSlot ondecoded trace = 1%nat /\
    countSlot ondecodeend trace = 1%nat.
Proof.
  intros HK Hlen d0 results trace Hall.
  assert (Hne : calls <> []) by (intros ->; cbn in Hlen; lia).
  destruct (batch_trace E algo K cbs calls 0 Hne Hlen Hall)
    as (bufs & Hl & Hbufs & Htr).
  exists bufs. split; [assumption|]. split; [|split; [exact Htr|]].
  - intros i a Hi. destruct (Hbufs i a Hi) as (b & Hbi & Hb).
    exists b. split; [assumption|]. split; [assumption|].
    subst results d0. unfold SynchPixelBufferDecoder.setCallbacks; cbn.
    rewrite (decodeAll_lookup E algo K cbs calls 0 i a Hi).
    rewrite (synch_decode_ok E (SynchPixelBufferDecoder.mk algo K (0 + Z.of_nat i) cbs)
               _ _ (arg_info a) b Hb).
    unfold traceOf, completionOf; cbn [fst snd].
    cbn [SynchPixelBufferDecoder.callbacks SynchPixelBufferDecoder.decodeCount
         SynchPixelBufferDecoder.numberOfData].
    replace (0 + Z.of_nat i + 1) with (Z.of_nat (S i)) by lia.
    destruct a; reflexivity.
  - subst trace results d0. unfold SynchPixelBufferDecoder.setCallbacks; cbn.
    cbn in Htr. rewrite Htr. rewrite !countSlot_app, !countSlot_items.
    rewrite length_zip_with. cbn. repeat split; lia.
Qed.

Lemma synch_batch_events_witness :
  0 < 3 /\
  exists bufs : list (option TypedArray),
    length bufs = 3%nat /\
    concat (map fst (snd (decodeAll bareHost
      (SynchPixelBufferDecoder.setCallbacks userCallbacks
         (SynchPixelBufferDecoder.new "rle" 3))
      [frame 0; frame 1; frame 2])))
    = zip_with (itemCall userCallbacks) bufs [frame 0; frame 1; frame 2]
      ++ endCalls userCallbacks.
Proof.
  split; [lia|].
  destruct (synch_batch_events bareHost "rle" 3 userCallbacks
              [frame 0; frame 1; frame 2])
    as (bufs & Hl & _ & Htr & _).
  - lia.
  - reflexivity.
  - vm_compute. repeat constructor.
  - exists bufs. split; [exact Hl | exact Htr].
Defined.

(** C5.  [abort()] on the synchronous decoder invokes the abort callback
    and then the decode-end callback, each once and with an empty event,
    and never the all-decoded callback; the fields are left as they were,
    so this holds for each call. *)
Theorem synch_abort_events (d : SynchPixelBufferDecoder.t) :
  let r := SynchPixelBufferDecoder.abort d in
  traceOf r
  = [Invoke onabort (cb_onabort (SynchPixelBufferDecoder.callbacks d)) EmptyEvent;
     Invoke ondecodeend (cb_ondecodeend (SynchPixelBufferDecoder.callbacks d))
       EmptyEvent] /\
  countSlot onabort (traceOf r) = 1%nat /\
  countSlot ondecodeend (traceOf r) = 1%nat /\
  countSlot ondecoded (traceOf r) = 0%nat /\
  stateOf r = d /\
  completionOf r = Returned.
Proof. repeat split. Qed.

Section SynchDispatch.
Variable E : Engines.

Import SynchPixelBufferDecoder.

Lemma decodedBuffer_unknown algo pb pm :
  ~ In algo dispatchTable -> decodedBuffer E algo pb pm = Ok None.
Proof.
  intros Hnot. unfold decodedBuffer.
  destruct (String.eqb_spec algo "jpeg-lossless") as [->|_];
    [exfalso; apply Hnot; cbn; tauto|].
  destruct (String.eqb_spec algo "jpeg-baseline") as [->|_];
    [exfalso; apply Hnot; cbn; tauto|].
  destruct (String.eqb_spec algo "jpeg2000") as [->|_];
    [exfalso; apply Hnot; cbn; tauto|].
  destruct (String.eqb_spec algo "rle") as [->|_];
    [exfalso; apply Hnot; cbn; tauto|].
  reflexivity.
Qed.

Lemma emits_nil s : ~ emits s [].
Proof. intros (h & e & []). Qed.

Lemma emits_cons_ne s s' h e tr :
  s <> s' -> emits s (Invoke s' h e :: tr) -> emits s tr.
Proof.
  intros Hne (h0 & e0 & [Heq|Hin]).
  - congruence.
  - exists h0, e0. assumption.
Qed.

Lemma not_emits_item_trace s cbs b a (f : bool) :
  s <> ondecodeditem -> s <> ondecoded -> s <> ondecodeend ->
  ~ emits s (itemCall cbs b a :: (if f then endCalls cbs else [])).
Proof.
  intros H1 H2 H3 Hem. apply emits_cons_ne in Hem; [|assumption].
  destruct f; [|exact (emits_nil _ Hem)].
  unfold endCalls in Hem.
  apply emits_cons_ne in Hem; [|assumption].
  apply emits_cons_ne in Hem; [|assumption].
  exact (emits_nil _ Hem).
Qed.

End SynchDispatch.

(** C2, what the code does where the claim wants a failure.  For an
    algorithm name outside the dispatch table the [if] chain has no branch
    and no final [else]: no engine is run and no decoded payload is
    produced ([decodedBuffer] stays [null]), but the call does not fail.
    It returns, the count advances, no error callback is invoked, and the
    per-item callback is invoked with [data: [null]] and the index
    (followed by the two closing invocations when the count meets the
    expected total). *)
Theorem unknown_algorithm_decode (E : Engines) (d : SynchPixelBufferDecoder.t)
    (pb : list Z) (pm : PixelMeta) (info : Info) :
  ~ In (SynchPixelBufferDecoder.algoName d) dispatchTable ->
  let r := SynchPixelBufferDecoder.decode E d pb pm info in
  SynchPixelBufferDecoder.decodedBuffer E
    (SynchPixelBufferDecoder.algoName d) pb pm = Ok None /\
  completionOf r = Returned /\
  traceOf r
  = Invoke ondecodeditem
      (cb_ondecodeditem (SynchPixelBufferDecoder.callbacks d))
      (ItemEvent [None] (itemNumber info))
    :: (if SynchPixelBufferDecoder.decodeCount d + 1
           =? SynchPixelBufferDecoder.numberOfData d
        then endCalls (SynchPixelBufferDecoder.callbacks d) else []) /\
  ~ emits onerror (traceOf r) /\
  SynchPixelBufferDecoder.decodeCount (stateOf r)
  = SynchPixelBufferDecoder.decodeCount d + 1.
Proof.
  intros Hnot r.
  pose proof (decodedBuffer_unknown E _ pb pm Hnot) as Hb.
  subst r. rewrite (synch_decode_ok E d pb pm info None Hb).
  unfold completionOf, traceOf, stateOf; cbn [fst snd].
  repeat split; try assumption.
  apply not_emits_item_trace; discriminate.
Qed.

Lemma unknown_algorithm_decode_witness :
  ~ In "png" dispatchTable /\
  traceOf (SynchPixelBufferDecoder.decode bareHost
             (SynchPixelBufferDecoder.new "png" 2) [1; 2] meta8 (mkInfo 7))
  = [Invoke ondecodeditem noop (ItemEvent [None] 7)].
Proof.
  assert (H : ~ In "png" dispatchTable).
  { cbn. intros [H|[H|[H|[H|[]]]]]; discriminate. }
  split; [exact H|].
  exact (proj1 (proj2 (proj2 (unknown_algorithm_decode bareHost
    (SynchPixelBufferDecoder.new "png" 2) [1; 2] meta8 (mkInfo 7) H)))).
Defined.

(** C2 at the name [png], which is not in the table: the call does not
    throw and the per-item callback is invoked. *)
Lemma unknown_algorithm_counterexample :
  let r := SynchPixelBufferDecoder.decode bareHost
             (SynchPixelBufferDecoder.new "png" 2) [1; 2] meta8 (mkInfo 7) in
  ~ In "png" dispatchTable /\
  ~ (threw (completionOf r) /\ ~ emits ondecodeditem (traceOf r)).
Proof.
  split.
  - cbn. intros [H|[H|[H|[H|[]]]]]; discriminate.
  - intros [[e He] _]. vm_compute in He. discriminate.
Qed.

(** C3, as amended.  When the algorithm is one of the three that need a
    pluggable engine and that engine was not found at load time, the call
    throws an [Error] carrying the engine's message to its caller; no
    callback at all is invoked (neither the error one nor the per-item
    one), and the count has advanced. *)
Theorem missing_codec_throws (E : Engines) (d : SynchPixelBufferDecoder.t)
    (pb : list Z) (pm : PixelMeta) (info : Info) (message : string) :
  (SynchPixelBufferDecoder.algoName d = "jpeg2000" /\
   hasJpeg2000Decoder E = false /\
   message = "No JPEG 2000 decoder provided") \/
  (SynchPixelBufferDecoder.algoName d = "jpeg-lossless" /\
   hasJpegLosslessDecoder E = false /\
   message = "No JPEG Lossless decoder provided") \/
  (SynchPixelBufferDecoder.algoName d = "jpeg-baseline" /\
   hasJpegBaselineDecoder E = false /\
   message = "No JPEG Baseline decoder provided") ->
  let r := SynchPixelBufferDecoder.decode E d pb pm info in
  completionOf r = Thrown (Error message) /\
  traceOf r = [] /\
  ~ emits onerror (traceOf r) /\
  ~ emits ondecodeditem (traceOf r) /\
  SynchPixelBufferDecoder.decodeCount (stateOf r)
  = SynchPixelBufferDecoder.decodeCount d + 1.
Proof.
  intros H r.
  assert (Hb : SynchPixelBufferDecoder.decodedBuffer E
                 (SynchPixelBufferDecoder.algoName d) pb pm
               = Throw (Error message)).
  { unfold SynchPixelBufferDecoder.decodedBuffer.
    destruct H as [(-> & -> & ->)|[(-> & -> & ->)|(-> & -> & ->)]];
      reflexivity. }
  subst r. rewrite (synch_decode_throw E d pb pm info _ Hb).
  unfold completionOf, traceOf, stateOf; cbn [fst snd].
  repeat split; try apply emits_nil.
Qed.

Lemma missing_codec_throws_witness :
  hasJpeg2000Decoder bareHost = false /\
  completionOf (SynchPixelBufferDecoder.decode bareHost
                  (SynchPixelBufferDecoder.new "jpeg2000" 1) [1; 2] meta16s
                  (mkInfo 0))
  = Thrown (Error "No JPEG 2000 decoder provided").
Proof.
  split; [reflexivity|].
  apply (missing_codec_throws bareHost
           (SynchPixelBufferDecoder.new "jpeg2000" 1) [1; 2] meta16s (mkInfo 0)
           "No JPEG 2000 decoder provided").
  left. repeat split.
Defined.

(** C3, as stated, fails: a [jpeg2000] call without the engine throws, but
    nothing is reported through the error callback. *)
Lemma missing_codec_counterexample :
  let r := SynchPixelBufferDecoder.decode bareHost
             (SynchPixelBufferDecoder.new "jpeg2000" 1) [1; 2] meta16s
             (mkInfo 0) in
  hasJpeg2000Decoder bareHost = false /\
  ~ (threw (completionOf r) /\ emits onerror (traceOf r) /\
     ~ emits ondecodeditem (traceOf r)).
Proof.
  split; [reflexivity|].
  intros (_ & (h & e & Hin) & _). vm_compute in Hin. exact Hin.
Qed.

(** C8.  A [jpeg-lossless] call that returns, with [bitsAllocated] 8 or
    16: the per-item callback receives a typed array over the bytes the
    lossless engine produced, whose class follows the meta data: [Int8Array]
    for 8 bits signed, [Uint8Array] for 8 bits unsigned, [Int16Array] for
    16 bits signed, [Uint16Array] for 16 bits unsigned. *)
Theorem jpeg_lossless_array_kind (E : Engines) (d : SynchPixelBufferDecoder.t)
    (pb : list Z) (pm : PixelMeta) (info : Info) :
  SynchPixelBufferDecoder.algoName d = "jpeg-lossless" ->
  bitsAllocated pm = 8 \/ bitsAllocated pm = 16 ->
  let r := SynchPixelBufferDecoder.decode E d pb pm info in
  completionOf r = Returned ->
  exists (k : ArrayKind) (bytes : list Z) (rest : list Call),
    jpeg_lossless_decode E (newUint8ArrayFrom pb) 0
      (byteLength (newUint8ArrayFrom pb)) (Qmake (bitsAllocated pm) 8)
    = Ok bytes /\
    traceOf r
    = Invoke ondecodeditem
        (cb_ondecodeditem (SynchPixelBufferDecoder.callbacks d))
        (ItemEvent [Some (mkTypedArray k bytes)] (itemNumber info))
      :: rest /\
    (bitsAllocated pm = 8 -> isSigned pm = true -> k = Int8Array) /\
    (bitsAllocated pm = 8 -> isSigned pm = false -> k = Uint8Array) /\
    (bitsAllocated pm = 16 -> isSigned pm = true -> k = Int16Array) /\
    (bitsAllocated pm = 16 -> isSigned pm = false -> k = Uint16Array).
Proof.
  intros Halgo Hbits r Hret.
  destruct (synch_decode_returned E d pb pm info Hret) as [b Hb].
  subst r. rewrite (synch_decode_ok E d pb pm info b Hb).
  unfold traceOf; cbn [fst snd].
  rewrite Halgo in Hb. unfold SynchPixelBufferDecoder.decodedBuffer in Hb.
  cbn [String.eqb Ascii.eqb Bool.eqb] in Hb.
  destruct (hasJpegLosslessDecoder E); cbn [negb] in Hb; [|discriminate].
  destruct (jpeg_lossless_decode E (newUint8ArrayFrom pb) 0
              (byteLength (newUint8ArrayFrom pb)) (Qmake (bitsAllocated pm) 8))
    as [bytes|e] eqn:Hdec; cbn [bind] in Hb; [|discriminate].
  assert (Hnew : forall k, (let* a := newTypedArray k bytes in Ok (Some a)) = Ok b ->
                           b = Some (mkTypedArray k bytes)).
  { intros k. unfold newTypedArray.
    destruct (byteLength bytes mod BYTES_PER_ELEMENT k =? 0); cbn [bind];
      congruence. }
  assert (Hk : exists k,
             b = Some (mkTypedArray k bytes) /\
             (bitsAllocated pm = 8 -> isSigned pm = true -> k = Int8Array) /\
             (bitsAllocated pm = 8 -> isSigned pm = false -> k = Uint8Array) /\
             (bitsAllocated pm = 16 -> isSigned pm = true -> k = Int16Array) /\
             (bitsAllocated pm = 16 -> isSigned pm = false -> k = Uint16Array)).
  { destruct Hbits as [Hbits|Hbits]; rewrite Hbits in Hb;
      cbn [Z.eqb Pos.eqb] in Hb;
      destruct (isSigned pm) eqn:Hs; apply Hnew in Hb;
      eexists; (split; [exact Hb|]);
      repeat split; intros; try reflexivity; congruence || lia. }
  destruct Hk as (k & -> & Hcases).
  exists k, bytes,
    (if SynchPixelBufferDecoder.decodeCount d + 1
        =? SynchPixelBufferDecoder.numberOfData d
     then endCalls (SynchPixelBufferDecoder.callbacks d) else []).
  split; [reflexivity|]. split; [reflexivity | exact Hcases].
Qed.

Lemma jpeg_lossless_array_kind_witness :
  exists (k : ArrayKind) (bytes : list Z) (rest : list Call),
    traceOf (SynchPixelBufferDecoder.decode fullHost
               (SynchPixelBufferDecoder.new "jpeg-lossless" 2)
               [1; 2; 3; 4] meta16s (mkInfo 0))
    = Invoke ondecodeditem noop (ItemEvent [Some (mkTypedArray k bytes)] 0)
      :: rest /\
    k = Int16Array.
Proof.
  destruct (jpeg_lossless_array_kind fullHost
              (SynchPixelBufferDecoder.new "jpeg-lossless" 2)
              [1; 2; 3; 4] meta16s (mkInfo 0)
              eq_refl (or_intror eq_refl) eq_refl)
    as (k & bytes & rest & _ & Htr & _ & _ & H16 & _).
  exists k, bytes, rest. split; [exact Htr | exact (H16 eq_refl eq_refl)].
Defined.

Section SynchCount.
Variable E : Engines.

Import SynchPixelBufferDecoder.

(** A call invokes the per-item callback once when it returns and not at
    all when it throws. *)
Lemma synch_decode_items d pb pm info :
  countSlot ondecodeditem (traceOf (decode E d pb pm info))
  = match completionOf (decode E d pb pm info) with
    | Returned => 1%nat
    | Thrown _ => 0%nat
    end.
Proof.
  destruct (decodedBuffer E (algoName d) pb pm) as [b|e] eqn:Hb.
  - rewrite (synch_decode_ok E d pb pm info b Hb).
    unfold traceOf, completionOf; cbn [fst snd].
    destruct (decodeCount d + 1 =? numberOfData d); reflexivity.
  - rewrite (synch_decode_throw E d pb pm info e Hb). reflexivity.
Qed.

Lemma decodeAll_items calls :
  forall d,
    let results := snd (decodeAll E d calls) in
    (countSlot ondecodeditem (concat (map fst results)) <= length calls)%nat /\
    (Exists (fun r => threw (snd r)) results ->
     (countSlot ondecodeditem (concat (map fst results)) < length calls)%nat).
Proof.
  induction calls as [|a calls IH]; intros d; cbn [decodeAll].
  - cbn. split; [lia|]. intros H. inversion H.
  - pose proof (synch_decode_items d (arg_pixelBuffer a) (arg_pixelMeta a)
                  (arg_info a)) as Hit.
    destruct (decode E d _ _ _) as [[d1 tr1] c1].
    unfold traceOf, completionOf in Hit; cbn [fst snd] in Hit.
    specialize (IH d1). destruct (decodeAll E d1 calls) as [d2 rs].
    cbn [snd map fst concat length] in IH |- *. destruct IH as [IHle IHlt].
    rewrite countSlot_app. split.
    + destruct c1; lia.
    + intros Hex. apply Exists_cons in Hex as [[e He]|Hex].
      * cbn [snd] in He. subst c1. lia.
      * specialize (IHlt Hex). destruct c1; lia.
Qed.

End SynchCount.

(** C9.  The count is incremented before the dispatch, so a call that
    throws still advances it by one.  Hence, in a batch of [K] attempted
    calls on a new decoder, the count stands at [K] whatever the calls
    did; if the [K]-th call returns, it invokes the per-item callback and
    then the all-decoded and decode-end callbacks, whether or not earlier
    calls threw; and if some call threw, fewer than [K] per-item
    invocations were made in all. *)
Theorem failed_calls_are_counted (E : Engines) (algo : string) (K : Z)
    (cbs : Callbacks) (calls : list DecodeArgs) :
  Z.of_nat (length calls) = K ->
  let d0 := SynchPixelBufferDecoder.setCallbacks cbs
              (SynchPixelBufferDecoder.new algo K) in
  let results := snd (decodeAll E d0 calls) in
  let trace := concat (map fst results) in
  (forall d pb pm info e,
     completionOf (SynchPixelBufferDecoder.decode E d pb pm info) = Thrown e ->
     SynchPixelBufferDecoder.decodeCount
       (stateOf (SynchPixelBufferDecoder.decode E d pb pm info))
     = SynchPixelBufferDecoder.decodeCount d + 1) /\
  SynchPixelBufferDecoder.decodeCount (fst (decodeAll E d0 calls)) = K /\
  (forall tr, last results = Some (tr, Returned) ->
     exists a b, last calls = Some a /\ tr = itemCall cbs b a :: endCalls cbs) /\
  (Exists (fun r => threw (snd r)) results ->
   (countSlot ondecodeditem trace < length calls)%nat).
Proof.
  intros Hlen d0 results trace. split; [|split; [|split]].
  - intros d pb pm info e _. rewrite synch_decode_state. reflexivity.
  - subst d0. rewrite decodeAll_count. cbn. lia.
  - intros tr Hlast. subst results d0.
    unfold SynchPixelBufferDecoder.setCallbacks, SynchPixelBufferDecoder.new in *.
    cbn [SynchPixelBufferDecoder.algoName SynchPixelBufferDecoder.numberOfData
         SynchPixelBufferDecoder.decodeCount] in *.
    rewrite last_lookup, decodeAll_length in Hlast.
    destruct (calls !! pred (length calls)) as [a|] eqn:Ha.
    2:{ apply lookup_ge_None in Ha.
        rewrite lookup_ge_None_2 in Hlast; [discriminate|].
        rewrite decodeAll_length. exact Ha. }
    rewrite (decodeAll_lookup E algo K cbs calls 0 _ a Ha) in Hlast.
    injection Hlast as Htr Hc.
    destruct (synch_decode_returned E _ _ _ _ Hc) as [b Hb].
    cbn [SynchPixelBufferDecoder.algoName] in Hb.
    rewrite (synch_decode_ok E
               (SynchPixelBufferDecoder.mk algo K
                  (0 + Z.of_nat (pred (length calls))) cbs)
               _ _ (arg_info a) b Hb) in Htr.
    unfold traceOf in Htr; cbn [fst snd] in Htr.
    cbn [SynchPixelBufferDecoder.callbacks SynchPixelBufferDecoder.decodeCount
         SynchPixelBufferDecoder.numberOfData] in Htr.
    exists a, b. split; [rewrite last_lookup; exact Ha|].
    assert (Hpos : (0 < length calls)%nat).
    { apply lookup_lt_Some in Ha. lia. }
    replace (0 + Z.of_nat (pred (length calls)) + 1 =? K) with true in Htr
      by (symmetry; apply Z.eqb_eq; lia).
    rewrite <- Htr. destruct a; reflexivity.
  - apply (decodeAll_items E calls d0).
Qed.

Lemma failed_calls_are_counted_witness :
  let calls := [mkDecodeArgs [] meta8 (mkInfo 0); frame 1] in
  let results :=
    snd (decodeAll bareHost
           (SynchPixelBufferDecoder.setCallbacks userCallbacks
              (SynchPixelBufferDecoder.new "rle" 2)) calls) in
  Z.of_nat (length calls) = 2 /\
  Exists (fun r => threw (snd r)) results /\
  (countSlot ondecodeditem (concat (map fst results)) < 2)%nat /\
  countSlot ondecoded (concat (map fst results)) = 1%nat /\
  countSlot ondecodeend (concat (map fst results)) = 1%nat.
Proof.
  intros calls results.
  assert (Hex : Exists (fun r => threw (snd r)) results).
  { apply Exists_cons_hd. exists (Error "RLE: empty buffer"). reflexivity. }
  split; [reflexivity|]. split; [exact Hex|]. split; [|split; reflexivity].
  exact (proj2 (proj2 (proj2
    (failed_calls_are_counted bareHost "rle" 2 userCallbacks calls eq_refl)))
    Hex).
Defined.

(** ** The facade *)

Section Facade.
Variable E : Engines.
Variable T : ThreadPool.

Import PixelBufferDecoder.

Lemma callbacks_eta c :
  mkCallbacks (cb_ondecodestart c) (cb_ondecodeditem c) (cb_ondecoded c)
    (cb_ondecodeend c) (cb_onerror c) (cb_onabort c) = c.
Proof. destruct c; reflexivity. Qed.

Lemma wired_callback s c :
  getPoolCallback s (wire c) = getCallback (wiredTo s) c.
Proof. destruct s; reflexivity. Qed.

Lemma dispatchPool_firedFrom c emitted :
  Forall (firedFrom c) (dispatchPool (wire c) emitted).
Proof.
  induction emitted as [|[s e] emitted IH]; cbn; constructor; [|exact IH].
  unfold firedFrom; cbn. apply wired_callback.
Qed.

Lemma dispatchPool_default emitted :
  Forall (fun call => callHandler call = noop)
    (dispatchPool defaultPoolCallbacks emitted).
Proof.
  induction emitted as [|[s e] emitted IH]; cbn; constructor; [|exact IH].
  destruct s; reflexivity.
Qed.

Lemma synch_decode_firedFrom s pb pm info :
  Forall (firedFrom (SynchPixelBufferDecoder.callbacks s))
    (traceOf (SynchPixelBufferDecoder.decode E s pb pm info)).
Proof.
  destruct (SynchPixelBufferDecoder.decodedBuffer E
              (SynchPixelBufferDecoder.algoName s) pb pm) as [b|e] eqn:Hb.
  - rewrite (synch_decode_ok E s pb pm info b Hb). unfold traceOf; cbn [fst snd].
    destruct (_ =? _); repeat constructor.
  - rewrite (synch_decode_throw E s pb pm info e Hb). constructor.
Qed.

(** What the asynchronous delegate's methods do to its fields, and
    through which callbacks they emit. *)
Lemma asynch_decode_fields (a : AsynchPixelBufferDecoder.t T) pb pm info :
  let a0 := AsynchPixelBufferDecoder.setEventHandlers T a in
  let r := AsynchPixelBufferDecoder.decode T a pb pm info in
  AsynchPixelBufferDecoder.script T (stateOf r)
  = AsynchPixelBufferDecoder.script T a /\
  AsynchPixelBufferDecoder.areCallbacksSet T (stateOf r) = true /\
  AsynchPixelBufferDecoder.callbacks T (stateOf r)
  = AsynchPixelBufferDecoder.callbacks T a /\
  AsynchPixelBufferDecoder.poolCallbacks T (stateOf r)
  = AsynchPixelBufferDecoder.poolCallbacks T a0 /\
  exists emitted,
    traceOf r = dispatchPool (AsynchPixelBufferDecoder.poolCallbacks T a0) emitted.
Proof.
  unfold AsynchPixelBufferDecoder.decode, stateOf, traceOf.
  destruct a as [sc pc p f c]; unfold AsynchPixelBufferDecoder.setEventHandlers.
  destruct f; cbn;
    destruct (pool_addWorkerTask T p _) as [[p' em] cpl]; cbn;
    repeat split; eauto.
Qed.

Lemma asynch_abort_fields (a : AsynchPixelBufferDecoder.t T) :
  let r := AsynchPixelBufferDecoder.abort T a in
  AsynchPixelBufferDecoder.script T (stateOf r)
  = AsynchPixelBufferDecoder.script T a /\
  AsynchPixelBufferDecoder.areCallbacksSet T (stateOf r)
  = AsynchPixelBufferDecoder.areCallbacksSet T a /\
  AsynchPixelBufferDecoder.callbacks T (stateOf r)
  = AsynchPixelBufferDecoder.callbacks T a /\
  AsynchPixelBufferDecoder.poolCallbacks T (stateOf r)
  = AsynchPixelBufferDecoder.poolCallbacks T a /\
  exists emitted,
    traceOf r = dispatchPool (AsynchPixelBufferDecoder.poolCallbacks T a) emitted.
Proof.
  unfold AsynchPixelBufferDecoder.abort, stateOf, traceOf.
  destruct a as [sc pc p f c]; cbn.
  destruct (pool_abort T p) as [[p' em] cpl]; cbn. repeat split; eauto.
Qed.

Lemma asynch_signal_fields (a : AsynchPixelBufferDecoder.t T) m :
  let r := AsynchPixelBufferDecoder.signal T a m in
  AsynchPixelBufferDecoder.script T (fst r)
  = AsynchPixelBufferDecoder.script T a /\
  AsynchPixelBufferDecoder.areCallbacksSet T (fst r)
  = AsynchPixelBufferDecoder.areCallbacksSet T a /\
  AsynchPixelBufferDecoder.callbacks T (fst r)
  = AsynchPixelBufferDecoder.callbacks T a /\
  AsynchPixelBufferDecoder.poolCallbacks T (fst r)
  = AsynchPixelBufferDecoder.poolCallbacks T a /\
  exists emitted,
    snd r = dispatchPool (AsynchPixelBufferDecoder.poolCallbacks T a) emitted.
Proof.
  unfold AsynchPixelBufferDecoder.signal.
  destruct a as [sc pc p f c]; cbn.
  destruct (pool_signal T p m) as [p' em]; cbn. repeat split; eauto.
Qed.

(** The facade's [decode] is its guarded block followed by the delegate's
    [decode]. *)
Lemma decode_unfold d pb pm info :
  let d0 := setCallbacks T d in
  let r := delegateDecode E T (pixelDecoder T d0) pb pm info in
  decode E T d pb pm info
  = (mk T (algoName T d0) (numberOfData T d0) (stateOf r)
       (areCallbacksSet T d0) (callbacks T d0),
     traceOf r, completionOf r).
Proof.
  unfold decode, stateOf, traceOf, completionOf; cbn.
  destruct (delegateDecode E T _ pb pm info) as [[p tr] cpl]. reflexivity.
Qed.

Lemma setCallbacks_fields d :
  let d0 := setCallbacks T d in
  algoName T d0 = algoName T d /\
  numberOfData T d0 = numberOfData T d /\
  areCallbacksSet T d0 = true /\
  callbacks T d0 = callbacks T d /\
  pixelDecoder T d0
  = (if areCallbacksSet T d then pixelDecoder T d
     else setDelegateCallbacks T (callbacks T d) (pixelDecoder T d)).
Proof.
  unfold setCallbacks. destruct d as [al nd p f c]; cbn.
  destruct f; cbn; rewrite ?callbacks_eta; repeat split.
Qed.

End Facade.

Section FacadeInvariants.
Variable E : Engines.
Variable T : ThreadPool.

Import PixelBufferDecoder.

(** With the guards closed, [decode] leaves the delegate's callbacks (and
    the pool's) as they are and emits through them. *)
Lemma decode_bound c d pb pm info :
  bound c d ->
  bound c (stateOf (decode E T d pb pm info)) /\
  Forall (firedFrom c) (traceOf (decode E T d pb pm info)).
Proof.
  intros [Hf Hd]. rewrite decode_unfold.
  destruct (setCallbacks_fields T d) as (_ & _ & Hf0 & _ & Hp).
  rewrite Hf in Hp. unfold bound, stateOf at 1, traceOf at 1; cbn.
  rewrite Hf0, Hp. destruct (pixelDecoder T d) as [a|s]; cbn.
  - destruct Hd as (Ha & Hc & Hpc).
    destruct (asynch_decode_fields T a pb pm info) as (_ & H1 & H2 & H3 & em & H4).
    unfold AsynchPixelBufferDecoder.setEventHandlers in H3, H4.
    rewrite Ha in H3, H4; cbn in H3, H4.
    destruct (AsynchPixelBufferDecoder.decode T a pb pm info) as [[a' tr] cpl].
    unfold stateOf, traceOf in *; cbn in *.
    rewrite H1, H2, H3, Hc, Hpc. repeat split.
    rewrite H4, Hpc. apply dispatchPool_firedFrom.
  - pose proof (synch_decode_state E s pb pm info) as Hs.
    pose proof (synch_decode_firedFrom E s pb pm info) as Htr.
    destruct (SynchPixelBufferDecoder.decode E s pb pm info) as [[s' tr] cpl].
    unfold stateOf, traceOf in *; cbn in *. subst s'; cbn.
    rewrite Hd in Htr. auto.
Qed.

(** The first [decode]: the guards close, and the delegate (and the pool)
    receive the callbacks the facade holds at that moment. *)
Lemma decode_pristine d pb pm info :
  pristine d ->
  bound (callbacks T d) (stateOf (decode E T d pb pm info)) /\
  Forall (firedFrom (callbacks T d)) (traceOf (decode E T d pb pm info)).
Proof.
  intros [Hf Hd]. rewrite decode_unfold.
  destruct (setCallbacks_fields T d) as (_ & _ & Hf0 & _ & Hp).
  rewrite Hf in Hp. unfold bound, stateOf at 1, traceOf at 1; cbn.
  rewrite Hf0, Hp. destruct (pixelDecoder T d) as [a|s]; cbn.
  - destruct Hd as (Ha & Hc & Hpc).
    destruct (asynch_decode_fields T
                (AsynchPixelBufferDecoder.setCallbacks T (callbacks T d) a)
                pb pm info) as (_ & H1 & H2 & H3 & em & H4).
    unfold AsynchPixelBufferDecoder.setEventHandlers in H3, H4.
    cbn in H3, H4. rewrite Ha in H3, H4; cbn in H3, H4.
    destruct (AsynchPixelBufferDecoder.decode T _ pb pm info) as [[a' tr] cpl].
    unfold stateOf, traceOf in *; cbn in *.
    rewrite H1, H2, H3. repeat split.
    rewrite H4. apply (dispatchPool_firedFrom (callbacks T d)).
  - pose proof (synch_decode_state E
                  (SynchPixelBufferDecoder.setCallbacks (callbacks T d) s)
                  pb pm info) as Hs.
    pose proof (synch_decode_firedFrom E
                  (SynchPixelBufferDecoder.setCallbacks (callbacks T d) s)
                  pb pm info) as Htr.
    destruct (SynchPixelBufferDecoder.decode E _ pb pm info) as [[s' tr] cpl].
    unfold stateOf, traceOf in *; cbn in *. subst s'; cbn. auto.
Qed.

Lemma abort_bound c d :
  bound c d ->
  bound c (stateOf (abort T d)) /\ Forall (firedFrom c) (traceOf (abort T d)).
Proof.
  intros [Hf Hd]. unfold abort, delegateAbort, bound.
  destruct d as [al nd p f cb]; cbn in *. destruct p as [a|s]; cbn in *.
  - destruct Hd as (Ha & Hc & Hpc).
    destruct (asynch_abort_fields T a) as (_ & H1 & H2 & H3 & em & H4).
    destruct (AsynchPixelBufferDecoder.abort T a) as [[a' tr] cpl].
    unfold stateOf, traceOf in *; cbn in *.
    rewrite H1, H2, H3, Ha, Hc, Hpc. repeat split; try assumption.
    rewrite H4, Hpc. apply dispatchPool_firedFrom.
  - unfold stateOf, traceOf; cbn. subst c.
    repeat split; try assumption. repeat constructor.
Qed.

Lemma signal_bound c d m :
  bound c d ->
  bound c (fst (signal T d m)) /\ Forall (firedFrom c) (snd (signal T d m)).
Proof.
  intros [Hf Hd]. unfold signal, bound.
  destruct d as [al nd p f cb]; cbn in *. destruct p as [a|s]; cbn in *.
  - destruct Hd as (Ha & Hc & Hpc).
    destruct (asynch_signal_fields T a m) as (_ & H1 & H2 & H3 & em & H4).
    destruct (AsynchPixelBufferDecoder.signal T a m) as [a' tr].
    cbn in *. rewrite H1, H2, H3, Ha, Hc, Hpc. repeat split; try assumption.
    rewrite H4, Hpc. apply dispatchPool_firedFrom.
  - repeat split; try assumption. constructor.
Qed.

Lemma abort_pristine d :
  pristine d ->
  pristine (stateOf (abort T d)) /\
  Forall (fun call => callHandler call = noop) (traceOf (abort T d)).
Proof.
  intros [Hf Hd]. unfold abort, delegateAbort, pristine.
  destruct d as [al nd p f cb]; cbn in *. destruct p as [a|s]; cbn in *.
  - destruct Hd as (Ha & Hc & Hpc).
    destruct (asynch_abort_fields T a) as (_ & H1 & H2 & H3 & em & H4).
    destruct (AsynchPixelBufferDecoder.abort T a) as [[a' tr] cpl].
    unfold stateOf, traceOf in *; cbn in *.
    rewrite H1, H2, H3, Ha, Hc, Hpc. repeat split; try assumption.
    rewrite H4, Hpc. apply dispatchPool_default.
  - unfold stateOf, traceOf; cbn. rewrite Hd.
    repeat split; try assumption. repeat constructor.
Qed.

Lemma signal_pristine d m :
  pristine d ->
  pristine (fst (signal T d m)) /\
  Forall (fun call => callHandler call = noop) (snd (signal T d m)).
Proof.
  intros [Hf Hd]. unfold signal, pristine.
  destruct d as [al nd p f cb]; cbn in *. destruct p as [a|s]; cbn in *.
  - destruct Hd as (Ha & Hc & Hpc).
    destruct (asynch_signal_fields T a m) as (_ & H1 & H2 & H3 & em & H4).
    destruct (AsynchPixelBufferDecoder.signal T a m) as [a' tr].
    cbn in *. rewrite H1, H2, H3, Ha, Hc, Hpc. repeat split; try assumption.
    rewrite H4, Hpc. apply dispatchPool_default.
  - repeat split; try assumption. constructor.
Qed.

Lemma new_pristine scripts algo n : pristine (new T scripts algo n).
Proof.
  unfold new, pristine. destruct (decoderScript scripts algo); cbn;
    repeat split.
Qed.

End FacadeInvariants.

Section Runs.
Variable E : Engines.
Variable T : ThreadPool.

Import PixelBufferDecoder.

Lemma assign_bound c s h (d : t T) : bound c d -> bound c (assign T s h d).
Proof. destruct d; exact (fun H => H). Qed.

Lemma assign_pristine s h (d : t T) : pristine d -> pristine (assign T s h d).
Proof. destruct d; exact (fun H => H). Qed.

Lemma step_bound c (w : World T) o :
  bound c (decoder w) ->
  bound c (decoder (fst (step E w o))) /\ Forall (firedFrom c) (snd (step E w o)).
Proof.
  intros Hb. destruct o as [a| |s h|k sc|k|m]; cbn [step].
  - pose proof (decode_bound E T c (decoder w) (arg_pixelBuffer a)
                  (arg_pixelMeta a) (arg_info a) Hb) as H.
    destruct (decode E T (decoder w) _ _ _) as [[d tr] cpl]. exact H.
  - pose proof (abort_bound T c (decoder w) Hb) as H.
    destruct (abort T (decoder w)) as [[d tr] cpl]. exact H.
  - split; [apply assign_bound; exact Hb | constructor].
  - split; [exact Hb | constructor].
  - split; [exact Hb | constructor].
  - pose proof (signal_bound T c (decoder w) m Hb) as H.
    destruct (signal T (decoder w) m) as [d tr]. exact H.
Qed.

Lemma run_bound c ops :
  forall w : World T,
    bound c (decoder w) ->
    bound c (decoder (fst (run E w ops))) /\
    Forall (firedFrom c) (snd (run E w ops)).
Proof.
  induction ops as [|o ops IH]; intros w Hb; cbn [run].
  - split; [exact Hb | constructor].
  - destruct (step_bound c w o Hb) as [Hb1 Htr1].
    destruct (step E w o) as [w1 tr1]. cbn [fst snd] in Hb1, Htr1.
    destruct (IH w1 Hb1) as [Hb2 Htr2].
    destruct (run E w1 ops) as [w2 tr2]. cbn [fst snd] in *.
    split; [exact Hb2 | apply Forall_app; split; assumption].
Qed.

Lemma step_pristine (w : World T) o :
  isDecode o = false ->
  pristine (decoder w) ->
  pristine (decoder (fst (step E w o))) /\
  Forall (fun call => callHandler call = noop) (snd (step E w o)).
Proof.
  intros Ho Hp. destruct o as [a| |s h|k sc|k|m]; cbn [step]; [discriminate|..].
  - pose proof (abort_pristine T (decoder w) Hp) as H.
    destruct (abort T (decoder w)) as [[d tr] cpl]. exact H.
  - split; [apply assign_pristine; exact Hp | constructor].
  - split; [exact Hp | constructor].
  - split; [exact Hp | constructor].
  - pose proof (signal_pristine T (decoder w) m Hp) as H.
    destruct (signal T (decoder w) m) as [d tr]. exact H.
Qed.

Lemma run_pristine ops :
  forall w : World T,
    forallb (fun o => negb (isDecode o)) ops = true ->
    pristine (decoder w) ->
    pristine (decoder (fst (run E w ops))) /\
    Forall (fun call => callHandler call = noop) (snd (run E w ops)).
Proof.
  induction ops as [|o ops IH]; intros w Hops Hp; cbn [run].
  - split; [exact Hp | constructor].
  - cbn [forallb] in Hops. apply andb_prop in Hops as [Ho Hops].
    apply negb_true_iff in Ho.
    destruct (step_pristine w o Ho Hp) as [Hp1 Htr1].
    destruct (step E w o) as [w1 tr1]. cbn [fst snd] in Hp1, Htr1.
    destruct (IH w1 Hops Hp1) as [Hp2 Htr2].
    destruct (run E w1 ops) as [w2 tr2]. cbn [fst snd] in *.
    split; [exact Hp2 | apply Forall_app; split; assumption].
Qed.

(** The delegate chosen by the constructor is never replaced. *)
Lemma new_routedAs scripts algo n :
  routedAs (decoderScript scripts algo) algo n
    (pixelDecoder T (new T scripts algo n)).
Proof. unfold new. destruct (decoderScript scripts algo); cbn; auto. Qed.

(** For a name that is not inherited, [decoderScripts[algoName]] is the
    entry of that name, if any. *)
Lemma decoderScript_own scripts algo :
  ~ In algo objectPrototype ->
  decoderScript scripts algo = ScriptPath <$> scripts !! algo.
Proof.
  intros Hnot. unfold decoderScript.
  destruct (scripts !! algo); [reflexivity|].
  destruct (existsb (String.eqb algo) objectPrototype) eqn:Hex;
    [|reflexivity].
  exfalso. apply existsb_exists in Hex as (name & Hin & Heq).
  apply String.eqb_eq in Heq. subst name. exact (Hnot Hin).
Qed.

Lemma setDelegateCallbacks_routedAs entry algo n c p :
  routedAs (T := T) entry algo n p ->
  routedAs entry algo n (setDelegateCallbacks T c p).
Proof. destruct entry, p; cbn; auto. Qed.

Lemma delegateDecode_routedAs entry algo n p pb pm info :
  routedAs entry algo n p ->
  routedAs entry algo n (stateOf (delegateDecode E T p pb pm info)).
Proof.
  destruct p as [a|s]; cbn.
  - destruct (asynch_decode_fields T a pb pm info) as (H & _).
    destruct (AsynchPixelBufferDecoder.decode T a pb pm info) as [[a' tr] cpl].
    unfold stateOf in *; cbn in *. destruct entry; [congruence | auto].
  - pose proof (synch_decode_state E s pb pm info) as H.
    destruct (SynchPixelBufferDecoder.decode E s pb pm info) as [[s' tr] cpl].
    unfold stateOf in *; cbn in *. subst s'. destruct entry; auto.
Qed.

Lemma delegateAbort_routedAs entry algo n p :
  routedAs entry algo n p ->
  routedAs entry algo n (stateOf (delegateAbort T p)).
Proof.
  destruct p as [a|s]; cbn.
  - destruct (asynch_abort_fields T a) as (H & _).
    destruct (AsynchPixelBufferDecoder.abort T a) as [[a' tr] cpl].
    unfold stateOf in *; cbn in *. destruct entry; [congruence | auto].
  - auto.
Qed.

Lemma step_routedAs entry algo n (w : World T) o :
  routedAs entry algo n (pixelDecoder T (decoder w)) ->
  routedAs entry algo n (pixelDecoder T (decoder (fst (step E w o)))).
Proof.
  intros Hr. destruct o as [a| |s h|k sc|k|m]; cbn [step].
  - rewrite decode_unfold. cbn.
    apply delegateDecode_routedAs.
    destruct (setCallbacks_fields T (decoder w)) as (_ & _ & _ & _ & ->).
    destruct (areCallbacksSet T (decoder w));
      [exact Hr | apply setDelegateCallbacks_routedAs; exact Hr].
  - unfold abort.
    pose proof (delegateAbort_routedAs entry algo n _ Hr) as H.
    destruct (delegateAbort T (pixelDecoder T (decoder w))) as [[p tr] cpl].
    exact H.
  - destruct (decoder w); exact Hr.
  - exact Hr.
  - exact Hr.
  - unfold signal. destruct (pixelDecoder T (decoder w)) as [a|s0] eqn:Hp.
    + destruct (asynch_signal_fields T a m) as (H & _).
      destruct (AsynchPixelBufferDecoder.signal T a m) as [a' tr].
      cbn in *. destruct entry; [congruence | auto].
    + cbn. rewrite Hp. exact Hr.
Qed.

Lemma run_routedAs entry algo n ops :
  forall w : World T,
    routedAs entry algo n (pixelDecoder T (decoder w)) ->
    routedAs entry algo n (pixelDecoder T (decoder (fst (run E w ops)))).
Proof.
  induction ops as [|o ops IH]; intros w Hr; cbn [run]; [exact Hr|].
  pose proof (step_routedAs entry algo n w o Hr) as H1.
  destruct (step E w o) as [w1 tr1]. cbn [fst] in H1.
  specialize (IH w1 H1). destruct (run E w1 ops) as [w2 tr2]. exact IH.
Qed.

End Runs.

Section Guard.
Variable E : Engines.
Variable T : ThreadPool.

Import PixelBufferDecoder.

(** With the facade's guard closed, [decode] assigns nothing to the
    delegate's callback fields, whatever the facade's own fields hold. *)
Lemma decode_guard_closed (d : t T) pb pm info :
  areCallbacksSet T d = true ->
  areCallbacksSet T (stateOf (decode E T d pb pm info)) = true /\
  delegateCallbacks T (pixelDecoder T (stateOf (decode E T d pb pm info)))
  = delegateCallbacks T (pixelDecoder T d).
Proof.
  intros Hf. rewrite decode_unfold.
  destruct (setCallbacks_fields T d) as (_ & _ & Hf0 & _ & Hp).
  rewrite Hf in Hp. unfold stateOf at 1 3; cbn. rewrite Hf0, Hp.
  split; [reflexivity|].
  destruct (pixelDecoder T d) as [a|s]; cbn.
  - destruct (asynch_decode_fields T a pb pm info) as (_ & _ & H & _).
    destruct (AsynchPixelBufferDecoder.decode T a pb pm info) as [[a' tr] cpl].
    exact H.
  - pose proof (synch_decode_state E s pb pm info) as H.
    destruct (SynchPixelBufferDecoder.decode E s pb pm info) as [[s' tr] cpl].
    unfold stateOf in *; cbn in *. subst s'. reflexivity.
Qed.

Lemma bound_delegateCallbacks c (d : t T) :
  bound c d -> delegateCallbacks T (pixelDecoder T d) = c.
Proof.
  intros [_ H]. destruct (pixelDecoder T d); cbn; [apply H | exact H].
Qed.

Lemma pristine_delegateCallbacks (d : t T) :
  pristine d -> delegateCallbacks T (pixelDecoder T d) = defaultCallbacks.
Proof.
  intros [_ H]. destruct (pixelDecoder T d); cbn; [apply H | exact H].
Qed.

End Guard.



(** C6.  On a facade that has not decoded yet (whatever was assigned to
    its callback fields meanwhile), the first [decode] closes the guard and
    copies the six callbacks the facade holds to the delegate (which, in
    worker pool mode, copies them to its pool in the same call).  Every
    later [decode] finds the guard closed and assigns nothing, whatever the
    facade's fields hold by then: after any further calls and assignments
    the delegate's six fields are what the first call made them. *)
Theorem callbacks_bound_once (E : Engines) (T : ThreadPool)
    (scripts : gmap string string) (algo : string) (n : Z)
    (pre : list (Op T)) (first : DecodeArgs) (later : list (Op T)) :
  forallb (fun o => negb (isDecode o)) pre = true ->
  let w0 := fst (run E
              (mkWorld scripts (PixelBufferDecoder.new T scripts algo n)) pre) in
  let w1 := fst (step E w0 (OpDecode first)) in
  let wn := fst (run E w1 later) in
  let bindings (w : World T) :=
    PixelBufferDecoder.delegateCallbacks T
      (PixelBufferDecoder.pixelDecoder T (decoder w)) in
  (PixelBufferDecoder.areCallbacksSet T (decoder w0) = false /\
   bindings w0 = defaultCallbacks) /\
  (PixelBufferDecoder.areCallbacksSet T (decoder w1) = true /\
   bindings w1 = PixelBufferDecoder.callbacks T (decoder w0) /\
   bound (PixelBufferDecoder.callbacks T (decoder w0)) (decoder w1)) /\
  (PixelBufferDecoder.areCallbacksSet T (decoder wn) = true /\
   bindings wn = PixelBufferDecoder.callbacks T (decoder w0) /\
   bound (PixelBufferDecoder.callbacks T (decoder w0)) (decoder wn)) /\
  (forall (d : PixelBufferDecoder.t T) pb pm info,
     PixelBufferDecoder.areCallbacksSet T d = true ->
     let d' := stateOf (PixelBufferDecoder.decode E T d pb pm info) in
     PixelBufferDecoder.areCallbacksSet T d' = true /\
     PixelBufferDecoder.delegateCallbacks T (PixelBufferDecoder.pixelDecoder T d')
     = PixelBufferDecoder.delegateCallbacks T
         (PixelBufferDecoder.pixelDecoder T d)).
Proof.
  intros Hpre w0 w1 wn bindings.
  destruct (run_pristine E T pre
              (mkWorld scripts (PixelBufferDecoder.new T scripts algo n))
              Hpre (new_pristine T scripts algo n))
    as [Hp0 _].
  fold w0 in Hp0.
  assert (Hb1 : bound (PixelBufferDecoder.callbacks T (decoder w0)) (decoder w1)).
  { pose proof (decode_pristine E T (decoder w0) (arg_pixelBuffer first)
                  (arg_pixelMeta first) (arg_info first) Hp0) as [H _].
    subst w1. cbn [step].
    destruct (PixelBufferDecoder.decode E T (decoder w0) _ _ _)
      as [[d tr] cpl]. exact H. }
  destruct (run_bound E T _ later w1 Hb1) as [Hbn _]. fold wn in Hbn.
  subst bindings. cbn beta.
  split; [|split; [|split]].
  - split; [exact (proj1 Hp0) | apply pristine_delegateCallbacks; exact Hp0].
  - split; [exact (proj1 Hb1)|].
    split; [apply bound_delegateCallbacks; exact Hb1 | exact Hb1].
  - split; [exact (proj1 Hbn)|].
    split; [apply bound_delegateCallbacks; exact Hbn | exact Hbn].
  - intros d pb pm info Hf. apply decode_guard_closed. exact Hf.
Qed.

Lemma callbacks_bound_once_witness :
  let scripts : gmap string string := {[ "rle" := "decode-rle.js" ]} in
  let pre : list (Op queuePool) := [OpAssign ondecodeditem (handler 2); OpAbort] in
  let later : list (Op queuePool) :=
    [OpAssign ondecodeditem (handler 9); OpDecode (frame 1)] in
  let w0 := fst (run bareHost
              (mkWorld scripts (PixelBufferDecoder.new queuePool scripts "rle" 2))
              pre) in
  let w1 := fst (step bareHost w0 (OpDecode (frame 0))) in
  let wn := fst (run bareHost w1 later) in
  forallb (fun o => negb (isDecode o)) pre = true /\
  PixelBufferDecoder.delegateCallbacks queuePool
    (PixelBufferDecoder.pixelDecoder queuePool (decoder wn))
  = mkCallbacks noop (handler 2) noop noop noop noop /\
  PixelBufferDecoder.callbacks queuePool (decoder wn)
  = mkCallbacks noop (handler 9) noop noop noop noop.
Proof.
  intros scripts pre later w0 w1 wn. split; [reflexivity|]. split.
  - exact (proj1 (proj2 (proj1 (proj2 (proj2
      (callbacks_bound_once bareHost queuePool scripts "rle" 2 pre (frame 0)
         later eq_refl)))))).
  - reflexivity.
Defined.

(** C10.  Around one facade: before its first [decode] only the
    prototype's do-nothing callbacks can be invoked; from the first
    [decode] on, every invocation (by the synchronous delegate or by the
    pool) is made with the function the facade held for that callback when
    the first [decode] started.  A handler assigned to the facade later
    is never copied to the delegate and is never invoked. *)
Theorem late_handlers_never_fire (E : Engines) (T : ThreadPool)
    (scripts : gmap string string) (algo : string) (n : Z)
    (pre : list (Op T)) (first : DecodeArgs) (post : list (Op T)) :
  forallb (fun o => negb (isDecode o)) pre = true ->
  let r0 := run E (mkWorld scripts (PixelBufferDecoder.new T scripts algo n)) pre in
  let snapshot := PixelBufferDecoder.callbacks T (decoder (fst r0)) in
  let r1 := step E (fst r0) (OpDecode first) in
  let r2 := run E (fst r1) post in
  Forall (fun call => callHandler call = noop) (snd r0) /\
  Forall (fun call => callHandler call = getCallback (callSlot call) snapshot)
    (snd r1 ++ snd r2) /\
  PixelBufferDecoder.delegateCallbacks T
    (PixelBufferDecoder.pixelDecoder T (decoder (fst r2))) = snapshot /\
  (forall h,
     (forall s, getCallback s snapshot <> h) ->
     ~ Exists (fun call => callHandler call = h) (snd r1 ++ snd r2)).
Proof.
  intros Hpre r0 snapshot r1 r2.
  destruct (run_pristine E T pre
              (mkWorld scripts (PixelBufferDecoder.new T scripts algo n))
              Hpre (new_pristine T scripts algo n))
    as [Hp0 Htr0].
  fold r0 in Hp0, Htr0.
  pose proof (decode_pristine E T (decoder (fst r0)) (arg_pixelBuffer first)
                (arg_pixelMeta first) (arg_info first) Hp0) as H1.
  fold snapshot in H1.
  assert (Hb1 : bound snapshot (decoder (fst r1)) /\
                Forall (firedFrom snapshot) (snd r1)).
  { subst r1. cbn [step].
    destruct (PixelBufferDecoder.decode E T (decoder (fst r0)) _ _ _)
      as [[d tr] cpl]. exact H1. }
  destruct Hb1 as [Hb1 Htr1].
  destruct (run_bound E T snapshot post (fst r1) Hb1) as [Hb2 Htr2].
  fold r2 in Hb2, Htr2.
  assert (Hall : Forall (firedFrom snapshot) (snd r1 ++ snd r2))
    by (apply Forall_app; split; assumption).
  split; [exact Htr0|]. split; [exact Hall|].
  split; [apply bound_delegateCallbacks; exact Hb2|].
  intros h Hh Hex. apply Exists_exists in Hex as (call & Hin & Hcall).
  rewrite Forall_forall in Hall. specialize (Hall call Hin).
  unfold firedFrom in Hall. apply (Hh (callSlot call)). congruence.
Qed.

Lemma late_handlers_never_fire_witness :
  let pre : list (Op queuePool) := [OpAssign ondecodeditem (handler 2)] in
  let post : list (Op queuePool) :=
    [OpAssign ondecodeditem (handler 9); OpDecode (frame 1); OpAbort] in
  let r0 := run bareHost
              (mkWorld ∅ (PixelBufferDecoder.new queuePool ∅ "rle" 2)) pre in
  let r1 := step bareHost (fst r0) (OpDecode (frame 0)) in
  let r2 := run bareHost (fst r1) post in
  forallb (fun o => negb (isDecode o)) pre = true /\
  ~ Exists (fun call => callHandler call = handler 9) (snd r1 ++ snd r2).
Proof.
  intros pre post r0 r1 r2. split; [reflexivity|].
  apply (proj2 (proj2 (proj2
    (late_handlers_never_fire bareHost queuePool ∅ "rle" 2 pre (frame 0) post
       eq_refl)))).
  intros s. destruct s; discriminate.
Defined.

(** ** The files loader *)

Section LoadEnd.

Import FilesLoader.

Lemma addLoadend_fields l data :
  inputData l = Some data ->
  let r := addLoadend l in
  inputData (fst (fst r)) = Some data /\
  cb_onloadend (fst (fst r)) = cb_onloadend l /\
  nLoadend (fst (fst r)) = nLoadend l + 1 /\
  snd (fst r)
  = (if nLoadend l + 1 =? 2 * Z.of_nat (length data)
     then [Invoke onloadend (cb_onloadend l) (SourceEvent data)] else []).
Proof.
  intros Hd. unfold addLoadend. destruct l; cbn in *. subst.
  destruct (_ =? _); cbn; repeat split.
Qed.

Lemma addLoadends_trace n :
  forall l data,
    inputData l = Some data ->
    let r := addLoadends n l in
    let M := Z.of_nat (length data) in
    inputData (fst r) = Some data /\
    cb_onloadend (fst r) = cb_onloadend l /\
    nLoadend (fst r) = nLoadend l + Z.of_nat n /\
    snd r
    = (if (nLoadend l <? 2 * M) && (2 * M <=? nLoadend l + Z.of_nat n)
       then [Invoke onloadend (cb_onloadend l) (SourceEvent data)] else []).
Proof.
  induction n as [|n IH]; intros l data Hd; cbn [addLoadends].
  - cbn [fst snd]. repeat split; [assumption | lia |].
    destruct (Z.ltb_spec (nLoadend l) (2 * Z.of_nat (length data))),
             (Z.leb_spec (2 * Z.of_nat (length data))
                (nLoadend l + Z.of_nat 0));
      try reflexivity. lia.
  - destruct (addLoadend_fields l data Hd) as (H1 & H2 & H3 & H4).
    destruct (addLoadend l) as [[l1 tr1] cpl].
    cbn [fst snd] in H1, H2, H3, H4.
    destruct (IH l1 data H1) as (I1 & I2 & I3 & I4).
    destruct (addLoadends n l1) as [l2 tr2]. cbn [fst snd] in *.
    rewrite I2, I3, I4, H4, H2, H3.
    repeat split; [assumption | lia |].
    set (M2 := 2 * Z.of_nat (length data)).
    destruct (Z.eqb_spec (nLoadend l + 1) M2),
             (Z.ltb_spec (nLoadend l + 1) M2),
             (Z.leb_spec M2 (nLoadend l + 1 + Z.of_nat n)),
             (Z.ltb_spec (nLoadend l) M2),
             (Z.leb_spec M2 (nLoadend l + Z.of_nat (S n)));
      cbn; try reflexivity; lia.
Qed.

End LoadEnd.

(** C7.  After [#storeInputData] stored a batch of [M >= 1] files, the
    load-end events of the readers and of the loader are counted; the
    event that brings the count to [2 * M] invokes [onloadend] (with the
    stored input as source) and no other does.  So after [n] events
    [onloadend] has been invoked once if [n >= 2 * M] and not at all if
    [n < 2 * M]. *)
Theorem onloadend_fires_once_at_twice_M (l : FilesLoader.t)
    (data : list FilesLoader.File) (n : nat) :
  data <> [] ->
  let M := Z.of_nat (length data) in
  let fire :=
    [FilesLoader.Invoke FilesLoader.onloadend (FilesLoader.cb_onloadend l)
       (FilesLoader.SourceEvent data)] in
  let r := FilesLoader.addLoadends n (FilesLoader.storeInputData data l) in
  FilesLoader.nLoadend (fst r) = Z.of_nat n /\
  snd r = (if 2 * M <=? Z.of_nat n then fire else []) /\
  snd (fst (FilesLoader.addLoadend (fst r)))
  = (if Z.of_nat (S n) =? 2 * M then fire else []).
Proof.
  intros Hne M fire r.
  assert (HM : 0 < M).
  { subst M. destruct data; [congruence | cbn; lia]. }
  destruct (addLoadends_trace n (FilesLoader.storeInputData data l) data
              eq_refl) as (H1 & Hcb & H2 & H3).
  fold r in H1, Hcb, H2, H3. cbn in Hcb, H2, H3. fold M in H3.
  split; [exact H2|]. split.
  - rewrite H3. replace (0 <? 2 * M) with true by (symmetry; apply Z.ltb_lt; lia).
    reflexivity.
  - destruct (addLoadend_fields (fst r) data H1) as (_ & _ & _ & H4).
    rewrite H4, H2, Hcb. fold M.
    replace (0 + Z.of_nat n + 1) with (Z.of_nat (S n)) by lia.
    reflexivity.
Qed.

Lemma onloadend_fires_once_at_twice_M_witness :
  let data := [FilesLoader.mkFile "a.dcm"; FilesLoader.mkFile "b.dcm"] in
  data <> [] /\
  snd (FilesLoader.addLoadends 3 (FilesLoader.storeInputData data FilesLoader.new))
  = [] /\
  snd (FilesLoader.addLoadends 4 (FilesLoader.storeInputData data FilesLoader.new))
  = [FilesLoader.Invoke FilesLoader.onloadend noop (FilesLoader.SourceEvent data)] /\
  snd (FilesLoader.addLoadends 7 (FilesLoader.storeInputData data FilesLoader.new))
  = [FilesLoader.Invoke FilesLoader.onloadend noop (FilesLoader.SourceEvent data)].
Proof.
  intros data.
  assert (Hne : data <> []) by discriminate.
  split; [exact Hne|]. split; [|split].
  - exact (proj1 (proj2
      (onloadend_fires_once_at_twice_M FilesLoader.new data 3 Hne))).
  - exact (proj1 (proj2
      (onloadend_fires_once_at_twice_M FilesLoader.new data 4 Hne))).
  - exact (proj1 (proj2
      (onloadend_fires_once_at_twice_M FilesLoader.new data 7 Hne))).
Defined.

(** ** Tags *)

Section TagKeys.

Import Stdlib.Strings.Ascii.

Lemma length4_inv s :
  String.length s = 4%nat ->
  exists a b c d, s = String a (String b (String c (String d EmptyString))).
Proof.
  destruct s as [|a [|b [|c [|d [|e s]]]]]; cbn; intros H; try discriminate.
  eauto.
Qed.

Lemma new_inv g e t :
  Tag.new g e = Ok t ->
  exists gs es,
    g = Some gs /\ e = Some es /\ t = Tag.mk gs es /\
    String.length gs = 4%nat /\ String.length es = 4%nat.
Proof.
  unfold Tag.new. destruct g as [[|a gs]|]; try discriminate.
  destruct (Nat.eqb_spec (String.length (String a gs)) 4); cbn [negb];
    try discriminate.
  destruct e as [[|b es]|]; try discriminate.
  destruct (Nat.eqb_spec (String.length (String b es)) 4); cbn [negb];
    try discriminate.
  intros [= <-]. eauto 10.
Qed.

Lemma new_wellSized gs es :
  String.length gs = 4%nat -> String.length es = 4%nat ->
  Tag.new (Some gs) (Some es) = Ok (Tag.mk gs es).
Proof.
  intros Hg He.
  destruct (length4_inv gs Hg) as (a & b & c & d & ->).
  destruct (length4_inv es He) as (a' & b' & c' & d' & ->).
  reflexivity.
Qed.

Lemma getTagFromKey_wellSized t :
  wellSized t -> Tag.getTagFromKey (Some (Tag.getKey t)) = Ok t.
Proof.
  destruct t as [gs es]. intros [Hg He]; cbn in Hg, He.
  destruct (length4_inv gs Hg) as (a & b & c & d & ->).
  destruct (length4_inv es He) as (a' & b' & c' & d' & ->).
  reflexivity.
Qed.

End TagKeys.

(** X1.  The key of a tag made by the constructor has eight characters,
    and [getTagFromKey] gives the tag back from it. *)
Theorem tag_key_round_trip (group element : option string) (tag : Tag.t) :
  Tag.new group element = Ok tag ->
  String.length (Tag.getKey tag) = 8%nat /\
  Tag.getTagFromKey (Some (Tag.getKey tag)) = Ok tag.
Proof.
  intros H. destruct (new_inv _ _ _ H) as (gs & es & -> & -> & -> & Hg & He).
  split; [|apply getTagFromKey_wellSized; split; assumption].
  destruct (length4_inv gs Hg) as (a & b & c & d & ->).
  destruct (length4_inv es He) as (a' & b' & c' & d' & ->).
  reflexivity.
Qed.

Lemma tag_key_round_trip_witness :
  Tag.new (Some "7FE0") (Some "0010") = Ok (Tag.mk "7FE0" "0010") /\
  Tag.getTagFromKey (Some "7FE00010") = Ok (Tag.mk "7FE0" "0010").
Proof.
  split; [reflexivity|].
  exact (proj2 (tag_key_round_trip (Some "7FE0") (Some "0010")
                  (Tag.mk "7FE0" "0010") eq_refl)).
Defined.

(** X2.  [getTagFromKey] succeeds exactly on the keys of eight characters:
    it then splits the key into a group and an element of four characters
    each, whose key is the given one.  An absent or empty key, or a key of
    another size, throws. *)
Theorem tag_from_key_iff (key : option string) (tag : Tag.t) :
  Tag.getTagFromKey key = Ok tag <->
  exists k,
    key = Some k /\ String.length k = 8%nat /\
    Tag.getKey tag = k /\ wellSized tag.
Proof.
  split.
  - unfold Tag.getTagFromKey. destruct key as [[|c k]|]; try discriminate.
    destruct (Nat.eqb_spec (String.length (String c k)) 8) as [Hl|];
      cbn [negb]; try discriminate.
    intros H. exists (String c k). split; [reflexivity|]. split; [exact Hl|].
    destruct k as [|c2 [|c3 [|c4 [|c5 [|c6 [|c7 [|c8 [|c9 k]]]]]]]];
      cbn in Hl; try discriminate.
    cbn in H. injection H as <-. repeat split.
  - intros (k & -> & Hl & <- & Hw). apply getTagFromKey_wellSized. exact Hw.
Qed.

(** X3.  On tags made by the constructor, [equals] holds exactly when the
    keys are the same string: the key identifies the tag.  Nothing equals
    [null] or [undefined]. *)
Theorem tag_equals_same_key (a b : Tag.t) :
  wellSized a -> wellSized b ->
  Tag.equals a None = false /\
  Tag.equals a (Some b) = String.eqb (Tag.getKey a) (Tag.getKey b) /\
  (Tag.equals a (Some b) = true <-> a = b).
Proof.
  destruct a as [ga ea], b as [gb eb]. intros [Hga Hea] [Hgb Heb].
  cbn in Hga, Hea, Hgb, Heb.
  destruct (length4_inv ga Hga) as (a1 & a2 & a3 & a4 & ->).
  destruct (length4_inv ea Hea) as (a5 & a6 & a7 & a8 & ->).
  destruct (length4_inv gb Hgb) as (b1 & b2 & b3 & b4 & ->).
  destruct (length4_inv eb Heb) as (b5 & b6 & b7 & b8 & ->).
  split; [reflexivity|]. split.
  - unfold Tag.equals, Tag.getKey, Tag.getGroup, Tag.getElement.
    cbv -[Ascii.eqb].
    destruct (Ascii.eqb a1 b1), (Ascii.eqb a2 b2), (Ascii.eqb a3 b3),
      (Ascii.eqb a4 b4); reflexivity.
  - unfold Tag.equals, Tag.getGroup, Tag.getElement; cbn [Tag.group Tag.element].
    rewrite andb_true_iff, !String.eqb_eq. split.
    + intros [-> ->]. reflexivity.
    + intros [= -> -> -> -> -> -> -> ->]. split; reflexivity.
Qed.

Lemma tag_equals_same_key_witness :
  wellSized (Tag.mk "FFFE" "E000") /\
  Tag.equals (Tag.mk "FFFE" "E000") (Some (Tag.mk "FFFE" "E00D")) = false.
Proof.
  assert (H1 : wellSized (Tag.mk "FFFE" "E000")) by (split; reflexivity).
  assert (H2 : wellSized (Tag.mk "FFFE" "E00D")) by (split; reflexivity).
  split; [exact H1|].
  exact (proj1 (proj2 (tag_equals_same_key _ _ H1 H2))).
Defined.

(** X4.  [isWithVR] is false exactly for the three tags recognised by
    [isItemTag], [isItemDelimitationItemTag] and
    [isSequenceDelimitationItemTag]. *)
Theorem tag_without_vr (tag : Tag.t) :
  Tag.isWithVR tag = false <->
  Tag.isItemTag tag = Ok true \/
  Tag.isItemDelimitationItemTag tag = Ok true \/
  Tag.isSequenceDelimitationItemTag tag = Ok true.
Proof.
  unfold Tag.isWithVR, Tag.isItemTag, Tag.isItemDelimitationItemTag,
    Tag.isSequenceDelimitationItemTag, Tag.equalsGetter.
  change Tag.getItemTag with (Ok (Tag.mk "FFFE" "E000")).
  change Tag.getItemDelimitationItemTag with (Ok (Tag.mk "FFFE" "E00D")).
  change Tag.getSequenceDelimitationItemTag with (Ok (Tag.mk "FFFE" "E0DD")).
  unfold Tag.equals, Tag.getGroup, Tag.getElement.
  cbn [bind Tag.group Tag.element].
  destruct (String.eqb (Tag.group tag) "FFFE"),
    (String.eqb (Tag.element tag) "E000"),
    (String.eqb (Tag.element tag) "E00D"),
    (String.eqb (Tag.element tag) "E0DD"); cbn;
    intuition congruence.
Qed.

Section TagNumbers.

Import Stdlib.Strings.Ascii.

Lemma hexDigit_range c d : Tag.hexDigit c = Some d -> 0 <= d < 16.
Proof.
  unfold Tag.hexDigit.
  destruct (Z.leb_spec 48 (Tag.codeUnit c)), (Z.leb_spec (Tag.codeUnit c) 57);
    cbn [andb]; try (intros [= <-]; lia);
  destruct (Z.leb_spec 97 (Tag.codeUnit c)), (Z.leb_spec (Tag.codeUnit c) 102);
    cbn [andb]; try (intros [= <-]; lia);
  destruct (Z.leb_spec 65 (Tag.codeUnit c)), (Z.leb_spec (Tag.codeUnit c) 70);
    cbn [andb]; try (intros [= <-]; lia); discriminate.
Qed.

(** A string that starts with two hexadecimal digits has no white space,
    sign or [0x] prefix to skip. *)
Lemma parseInt16_digits c1 c2 s d1 d2 :
  Tag.hexDigit c1 = Some d1 -> Tag.hexDigit c2 = Some d2 ->
  Tag.parseInt16 (String c1 (String c2 s))
  = Some (Tag.hexValue s (16 * d1 + d2)).
Proof.
  intros H1 H2. rewrite <- (Z.mul_1_l (Tag.hexValue s (16 * d1 + d2))).
  destruct c1 as [[] [] [] [] [] [] [] []]; vm_compute in H1;
    try discriminate H1; injection H1 as <-;
    destruct c2 as [[] [] [] [] [] [] [] []]; vm_compute in H2;
      try discriminate H2; injection H2 as <-;
      reflexivity.
Qed.

Lemma parseInt16_hex4 s d1 d2 d3 d4 :
  hexDigits4 s = Some (d1, d2, d3, d4) ->
  Tag.parseInt16 s = Some (4096 * d1 + 256 * d2 + 16 * d3 + d4) /\
  0 <= d1 < 16 /\ 0 <= d2 < 16 /\ 0 <= d3 < 16 /\ 0 <= d4 < 16.
Proof.
  unfold hexDigits4.
  destruct s as [|c1 [|c2 [|c3 [|c4 [|c5 s]]]]]; try discriminate.
  destruct (Tag.hexDigit c1) as [e1|] eqn:H1; try discriminate.
  destruct (Tag.hexDigit c2) as [e2|] eqn:H2; try discriminate.
  destruct (Tag.hexDigit c3) as [e3|] eqn:H3; try discriminate.
  destruct (Tag.hexDigit c4) as [e4|] eqn:H4; try discriminate.
  intros [= <- <- <- <-].
  rewrite (parseInt16_digits c1 c2 _ e1 e2 H1 H2).
  cbn [Tag.hexValue]. rewrite H3, H4.
  pose proof (hexDigit_range _ _ H1). pose proof (hexDigit_range _ _ H2).
  pose proof (hexDigit_range _ _ H3). pose proof (hexDigit_range _ _ H4).
  repeat split; try lia. f_equal. lia.
Qed.

Lemma minus_opp a b : Tag.minus b a = Z.opp <$> Tag.minus a b.
Proof. destruct a, b; cbn; try reflexivity. f_equal. lia. Qed.

(** The two numbers whose difference [tagCompareFunction] returns. *)
Lemma tagCompareFunction_inv a b r :
  Tag.tagCompareFunction a b = Some r ->
  exists ga gb,
    Tag.parseInt16 (Tag.group a) = Some ga /\
    Tag.parseInt16 (Tag.group b) = Some gb /\
    ((ga <> gb /\ r = ga - gb) \/
     (ga = gb /\ exists ea eb,
        Tag.parseInt16 (Tag.element a) = Some ea /\
        Tag.parseInt16 (Tag.element b) = Some eb /\ r = ea - eb)).
Proof.
  unfold Tag.tagCompareFunction, Tag.getGroup, Tag.getElement.
  destruct (Tag.parseInt16 (Tag.group a)) as [ga|]; [|discriminate].
  destruct (Tag.parseInt16 (Tag.group b)) as [gb|]; [|discriminate].
  cbn [Tag.minus]. intros H. exists ga, gb. split; [reflexivity|].
  split; [reflexivity|].
  destruct (ga - gb) eqn:Hd.
  - right. split; [lia|].
    destruct (Tag.parseInt16 (Tag.element a)) as [ea|]; [|discriminate].
    destruct (Tag.parseInt16 (Tag.element b)) as [eb|]; [|discriminate].
    injection H as <-. eauto.
  - left. injection H as <-. lia.
  - left. injection H as <-. lia.
Qed.

Lemma tagCompareFunction_groups a b ga gb :
  Tag.parseInt16 (Tag.group a) = Some ga ->
  Tag.parseInt16 (Tag.group b) = Some gb ->
  Tag.tagCompareFunction a b
  = (if ga =? gb
     then Tag.minus (Tag.parseInt16 (Tag.element a))
            (Tag.parseInt16 (Tag.element b))
     else Some (ga - gb)).
Proof.
  intros Ha Hb. unfold Tag.tagCompareFunction, Tag.getGroup, Tag.getElement.
  rewrite Ha, Hb. cbn [Tag.minus].
  destruct (Z.eqb_spec ga gb) as [->|Hne].
  - rewrite Z.sub_diag. reflexivity.
  - destruct (ga - gb) eqn:Hd; [lia|reflexivity|reflexivity].
Qed.

End TagNumbers.

(** X5.  For a group of four hexadecimal digits, [isPrivate] tells whether
    the last digit is odd. *)
Theorem tag_private_last_digit (tag : Tag.t) (d1 d2 d3 d4 : Z) :
  hexDigits4 (Tag.group tag) = Some (d1, d2, d3, d4) ->
  Tag.isPrivate tag = Z.odd d4.
Proof.
  intros H. destruct (parseInt16_hex4 _ _ _ _ _ H) as (Hp & H1 & H2 & H3 & H4).
  unfold Tag.isPrivate, Tag.getGroup. rewrite Hp.
  rewrite Z.rem_mod_nonneg by lia.
  replace (4096 * d1 + 256 * d2 + 16 * d3 + d4)
    with (d4 + (2048 * d1 + 128 * d2 + 8 * d3) * 2) by lia.
  rewrite Z.mod_add by lia.
  rewrite Zmod_odd. destruct (Z.odd d4); reflexivity.
Qed.

Lemma tag_private_last_digit_witness :
  hexDigits4 "0029" = Some (0, 0, 2, 9) /\
  Tag.isPrivate (Tag.mk "0029" "1010") = true.
Proof.
  split; [reflexivity|].
  exact (tag_private_last_digit (Tag.mk "0029" "1010") 0 0 2 9 eq_refl).
Defined.

(** X6.  [tagCompareFunction] is a consistent comparator wherever it
    returns numbers: swapping the arguments negates the result ([NaN]
    staying [NaN]), and it is transitive, strictly so when one of the two
    comparisons is strict. *)
Theorem tag_compare_laws (a b c : Tag.t) :
  Tag.tagCompareFunction b a = Z.opp <$> Tag.tagCompareFunction a b /\
  (forall r1 r2,
     Tag.tagCompareFunction a b = Some r1 ->
     Tag.tagCompareFunction b c = Some r2 ->
     r1 <= 0 -> r2 <= 0 ->
     exists r3,
       Tag.tagCompareFunction a c = Some r3 /\ r3 <= 0 /\
       (r1 < 0 \/ r2 < 0 -> r3 < 0)).
Proof.
  split.
  - unfold Tag.tagCompareFunction.
    rewrite (minus_opp (Tag.parseInt16 (Tag.getGroup a))).
    rewrite (minus_opp (Tag.parseInt16 (Tag.getElement a))).
    destruct (Tag.minus (Tag.parseInt16 (Tag.getGroup a))
                (Tag.parseInt16 (Tag.getGroup b))) as [[| |]|];
      reflexivity.
  - intros r1 r2 Hab Hbc H1 H2.
    destruct (tagCompareFunction_inv _ _ _ Hab)
      as (ga & gb & Hga & Hgb & Hcase1).
    destruct (tagCompareFunction_inv _ _ _ Hbc)
      as (gb' & gc & Hgb' & Hgc & Hcase2).
    rewrite Hgb in Hgb'. injection Hgb' as Heq. subst gb'.
    rewrite (tagCompareFunction_groups a c ga gc Hga Hgc).
    destruct Hcase1 as [[Hne1 Hr1]|(Hg1 & ea & eb & Hea & Heb & Hr1)];
      destruct Hcase2 as [[Hne2 Hr2]|(Hg2 & eb' & ec & Heb' & Hec & Hr2)].
    + destruct (Z.eqb_spec ga gc); [lia|].
      exists (ga - gc). repeat split; lia.
    + destruct (Z.eqb_spec ga gc); [lia|].
      exists (ga - gc). repeat split; lia.
    + destruct (Z.eqb_spec ga gc); [lia|].
      exists (ga - gc). repeat split; lia.
    + rewrite Heb in Heb'. injection Heb' as Heq. subst eb'.
      destruct (Z.eqb_spec ga gc); [|lia].
      rewrite Hea, Hec. cbn [Tag.minus].
      exists (ea - ec). repeat split; lia.
Qed.

(** X7.  On tags whose group and element are four hexadecimal digits, the
    comparison is never [NaN]: it is the difference of the groups' values
    or, when these are the same, of the elements' values, all below 65536;
    it is zero exactly when both pairs of values are the same. *)
Theorem tag_compare_hex (a b : Tag.t) :
  hexTag a -> hexTag b ->
  exists ga ea gb eb,
    Tag.parseInt16 (Tag.group a) = Some ga /\
    Tag.parseInt16 (Tag.element a) = Some ea /\
    Tag.parseInt16 (Tag.group b) = Some gb /\
    Tag.parseInt16 (Tag.element b) = Some eb /\
    0 <= ga < 65536 /\ 0 <= ea < 65536 /\
    0 <= gb < 65536 /\ 0 <= eb < 65536 /\
    Tag.tagCompareFunction a b
    = Some (if ga =? gb then ea - eb else ga - gb) /\
    (Tag.tagCompareFunction a b = Some 0 <-> ga = gb /\ ea = eb).
Proof.
  intros [[[[[g1 g2] g3] g4] Hga] [[[[e1 e2] e3] e4] Hea]]
         [[[[[h1 h2] h3] h4] Hgb] [[[[f1 f2] f3] f4] Heb]].
  destruct (parseInt16_hex4 _ _ _ _ _ Hga) as (Pga & ? & ? & ? & ?).
  destruct (parseInt16_hex4 _ _ _ _ _ Hea) as (Pea & ? & ? & ? & ?).
  destruct (parseInt16_hex4 _ _ _ _ _ Hgb) as (Pgb & ? & ? & ? & ?).
  destruct (parseInt16_hex4 _ _ _ _ _ Heb) as (Peb & ? & ? & ? & ?).
  eexists _, _, _, _.
  split; [exact Pga|]. split; [exact Pea|].
  split; [exact Pgb|]. split; [exact Peb|].
  rewrite (tagCompareFunction_groups a b _ _ Pga Pgb), Pea, Peb.
  cbn [Tag.minus].
  repeat (split; [lia|]).
  destruct (Z.eqb_spec (4096 * g1 + 256 * g2 + 16 * g3 + g4)
              (4096 * h1 + 256 * h2 + 16 * h3 + h4)) as [Heq|Hne].
  - split; [reflexivity|]. split.
    + intros [= Hz]. split; [exact Heq | lia].
    + intros [_ Hz]. f_equal. lia.
  - split; [reflexivity|]. split.
    + intros [= Hz]. lia.
    + intros [Hz _]. contradiction.
Qed.

Lemma tag_compare_hex_witness :
  hexTag (Tag.mk "0028" "0010") /\ hexTag (Tag.mk "0028" "0100") /\
  exists r,
    Tag.tagCompareFunction (Tag.mk "0028" "0010") (Tag.mk "0028" "0100")
    = Some r.
Proof.
  assert (Ha : hexTag (Tag.mk "0028" "0010")) by (split; eexists; reflexivity).
  assert (Hb : hexTag (Tag.mk "0028" "0100")) by (split; eexists; reflexivity).
  split; [exact Ha|]. split; [exact Hb|].
  destruct (tag_compare_hex _ _ Ha Hb)
    as (ga & ea & gb & eb & _ & _ & _ & _ & _ & _ & _ & _ & Hc & _).
  eexists. exact Hc.
Defined.

Lemma tag_compare_laws_witness :
  exists r3,
    Tag.tagCompareFunction (Tag.mk "0008" "0018") (Tag.mk "7FE0" "0010")
    = Some r3 /\ r3 < 0.
Proof.
  destruct (proj2 (tag_compare_laws (Tag.mk "0008" "0018")
                     (Tag.mk "0028" "0010") (Tag.mk "7FE0" "0010"))
              (-32) (-32696) eq_refl eq_refl)
    as (r3 & H3 & _ & Hlt); [lia | lia |].
  exists r3. split; [exact H3 | apply Hlt; left; lia].
Defined.

Section TagDictionary.

Lemma property_In {A : Type} key (object : list (string * A)) v :
  Tag.property key object = Some v -> In (key, v) object.
Proof.
  induction object as [|[k w] object IH]; cbn; [discriminate|].
  destruct (String.eqb_spec k key) as [->|_].
  - intros [= ->]. left. reflexivity.
  - intros H. right. apply IH. exact H.
Qed.

Lemma In_property {A : Type} key (object : list (string * A)) v :
  NoDup (map fst object) -> In (key, v) object ->
  Tag.property key object = Some v.
Proof.
  induction object as [|[k w] object IH]; cbn; intros Hnd Hin; [contradiction|].
  apply NoDup_cons in Hnd as [Hk Hnd].
  destruct Hin as [[= -> ->]|Hin].
  - rewrite String.eqb_refl. reflexivity.
  - destruct (String.eqb_spec k key) as [->|_].
    + exfalso. apply Hk. apply list_elem_of_In.
      apply (in_map fst) in Hin. exact Hin.
    + apply IH; assumption.
Qed.

Lemma searchElements_found tagName elements :
  forall element0 element,
    Tag.searchElements tagName elements element0 = (element, true) ->
    exists k info,
      element = Some k /\ In (k, info) elements /\ Tag.name info = tagName.
Proof.
  induction elements as [|[k1 info1] elements IH]; intros e0 e; cbn;
    [discriminate|].
  destruct (String.eqb_spec (Tag.name info1) tagName) as [Hn|_].
  - intros [= <-]. exists k1, info1. auto.
  - intros H. destruct (IH _ _ H) as (k & info & -> & Hin & Hname).
    exists k, info. auto.
Qed.

Lemma searchElements_missing tagName elements :
  forall element0 element,
    Tag.searchElements tagName elements element0 = (element, false) ->
    forall k info, In (k, info) elements -> Tag.name info <> tagName.
Proof.
  induction elements as [|[k1 info1] elements IH]; intros e0 e; cbn;
    [intros _ k info []|].
  destruct (String.eqb_spec (Tag.name info1) tagName) as [_|Hn];
    [discriminate|].
  intros H k info [[= <- <-]|Hin]; [exact Hn | exact (IH _ _ H k info Hin)].
Qed.

Lemma searchGroups_found tagName dictionary :
  forall group0 element0 group element,
    Tag.searchGroups tagName dictionary group0 element0 = (group, element, true) ->
    exists g elements e info,
      group = Some g /\ element = Some e /\
      In (g, elements) dictionary /\ In (e, info) elements /\
      Tag.name info = tagName.
Proof.
  induction dictionary as [|[k0 elements] dictionary IH];
    intros g0 e0 g e; cbn [Tag.searchGroups]; [discriminate|].
  destruct (Tag.searchElements tagName elements e0) as [e1 [|]] eqn:Hs.
  - intros [= <- <-].
    destruct (searchElements_found _ _ _ _ Hs) as (k & info & -> & Hin & Hn).
    exists k0, elements, k, info. cbn. auto 10.
  - intros H.
    destruct (IH _ _ _ _ H) as (g' & els & e' & info & -> & -> & Hin & Hin' & Hn).
    exists g', els, e', info. cbn. auto 10.
Qed.

Lemma searchGroups_missing tagName dictionary :
  forall group0 element0 group element,
    Tag.searchGroups tagName dictionary group0 element0 = (group, element, false) ->
    ~ named dictionary tagName.
Proof.
  induction dictionary as [|[k0 elements] dictionary IH];
    intros g0 e0 g e; cbn [Tag.searchGroups].
  - intros _ (? & ? & ? & ? & [] & _).
  - destruct (Tag.searchElements tagName elements e0) as [e1 [|]] eqn:Hs;
      [discriminate|].
    intros H (g' & els & e' & info & [[= <- <-]|Hin] & Hin' & Hn).
    + exact (searchElements_missing _ _ _ _ Hs e' info Hin' Hn).
    + apply (IH _ _ _ _ H). exists g', els, e', info. auto.
Qed.

End TagDictionary.

(** X8.  [getTagFromDictionary] and [getNameFromDictionary] agree: a tag
    found for a name has that name in the dictionary. *)
Theorem tag_dictionary_round_trip (dictionary : Tag.Dictionary)
    (tagName : string) (tag : Tag.t) :
  uniqueKeys dictionary ->
  Tag.getTagFromDictionary dictionary (Some tagName) = Ok (Some tag) ->
  Tag.getNameFromDictionary dictionary tag = Some tagName /\
  wellSized tag.
Proof.
  intros [Hnd Hall]. unfold Tag.getTagFromDictionary.
  destruct (Tag.searchGroups tagName dictionary None None)
    as [[group element] [|]] eqn:Hs; [|discriminate].
  destruct (searchGroups_found _ _ _ _ _ _ Hs)
    as (g & elements & e & info & -> & -> & Hin & Hin' & Hname).
  destruct (Tag.new (Some g) (Some e)) as [t|] eqn:Hnew; cbn [bind];
    [|discriminate].
  intros [= <-].
  destruct (new_inv _ _ _ Hnew) as (gs & es & [= <-] & [= <-] & -> & Hg & He).
  split; [|split; assumption].
  unfold Tag.getNameFromDictionary, Tag.getInfoFromDictionary,
    Tag.getGroup, Tag.getElement; cbn [Tag.group Tag.element].
  rewrite (In_property g dictionary elements Hnd Hin).
  rewrite List.Forall_forall in Hall.
  rewrite (In_property e elements info (Hall _ Hin) Hin').
  rewrite Hname. reflexivity.
Qed.

Lemma tag_dictionary_round_trip_witness :
  uniqueKeys sampleDictionary /\
  Tag.getTagFromDictionary sampleDictionary (Some "PixelData")
  = Ok (Some (Tag.mk "7FE0" "0010")) /\
  Tag.getNameFromDictionary sampleDictionary (Tag.mk "7FE0" "0010")
  = Some "PixelData".
Proof.
  assert (Hu : uniqueKeys sampleDictionary).
  { split.
    - cbn. repeat constructor; cbn; intros H; inversion H; subst;
        try discriminate; match goal with H' : _ ∈ [] |- _ => inversion H' end.
    - repeat constructor; cbn; intros H; inversion H; subst;
        try discriminate; match goal with H' : _ ∈ [] |- _ => inversion H' end. }
  split; [exact Hu|]. split; [reflexivity|].
  exact (proj1 (tag_dictionary_round_trip sampleDictionary "PixelData"
                  (Tag.mk "7FE0" "0010") Hu eq_refl)).
Defined.

(** X9.  [getTagFromDictionary] returns [null] exactly when the name is
    absent ([undefined] or [null]) or no entry of the dictionary has it;
    for a name that an entry has, it returns a tag or, when that entry's
    keys are not of four characters, throws. *)
Theorem tag_dictionary_null (dictionary : Tag.Dictionary)
    (tagName : option string) :
  Tag.getTagFromDictionary dictionary tagName = Ok None <->
  match tagName with
  | None => True
  | Some tagName => ~ named dictionary tagName
  end.
Proof.
  destruct tagName as [tagName|]; cbn; [|tauto].
  destruct (Tag.searchGroups tagName dictionary None None)
    as [[group element] [|]] eqn:Hs.
  - split.
    + destruct (Tag.new group element); cbn; discriminate.
    + intros Hno. exfalso. apply Hno.
      destruct (searchGroups_found _ _ _ _ _ _ Hs)
        as (g & elements & e & info & _ & _ & Hin & Hin' & Hname).
      exists g, elements, e, info. auto.
  - split; [intros _|reflexivity].
    exact (searchGroups_missing _ _ _ _ _ _ Hs).
Qed.

(** ** The files loader: signals and [load] *)

Section LoaderSignals.

Import FilesLoader.
Import FilesLoaderLoad.

Lemma addLoad_fields l data :
  inputData l = Some data ->
  let r := addLoad l in
  inputData (fst (fst r)) = Some data /\
  nLoad (fst (fst r)) = nLoad l + 1 /\
  nLoadend (fst (fst r)) = nLoadend l /\
  snd (fst r)
  = (if nLoad l + 1 =? Z.of_nat (length data)
     then [Invoke onload (cb_onload l) (SourceEvent data)] else []).
Proof.
  intros Hd. unfold addLoad. destruct l; cbn in *. subst.
  destruct (_ =? _); cbn; repeat split.
Qed.

Lemma loader_countSlot_app s tr1 tr2 :
  countSlot s (tr1 ++ tr2) = (countSlot s tr1 + countSlot s tr2)%nat.
Proof. unfold countSlot. rewrite List.filter_app, length_app. reflexivity. Qed.

(** One signal: what it adds to the counters and to the invocations. *)
Lemma deliver_fields s l data :
  inputData l = Some data ->
  let M := Z.of_nat (length data) in
  let r := deliver s l in
  inputData (fst r) = Some data /\
  nLoad (fst r) = nLoad l + (if isLoad s then 1 else 0) /\
  nLoadend (fst r) = nLoadend l + (if isLoadend s then 1 else 0) /\
  countSlot onloaditem (snd r) = (if isLoadItem s then 1%nat else 0%nat) /\
  countSlot onload (snd r)
  = (if isLoad s && (nLoad l + 1 =? M) then 1%nat else 0%nat) /\
  countSlot onloadend (snd r)
  = (if isLoadend s && (nLoadend l + 1 =? 2 * M) then 1%nat else 0%nat).
Proof.
  intros Hd M r. subst r.
  destruct s as [event| |]; cbn [deliver isLoad isLoadend isLoadItem andb].
  - unfold addLoadItem.
    destruct (addLoad_fields l data Hd) as (H1 & H2 & H3 & H4).
    destruct (addLoad l) as [[l1 tr1] c1]. cbn [fst snd] in *.
    rewrite H1, H2, H3, H4. fold M.
    destruct (nLoad l + 1 =? M); repeat split; try reflexivity; lia.
  - destruct (addLoad_fields l data Hd) as (H1 & H2 & H3 & H4).
    destruct (addLoad l) as [[l1 tr1] c1]. cbn [fst snd] in *.
    rewrite H1, H2, H3, H4. fold M.
    destruct (nLoad l + 1 =? M); repeat split; try reflexivity; lia.
  - destruct (addLoadend_fields l data Hd) as (H1 & _ & H3 & H4).
    assert (H2 : nLoad (fst (fst (addLoadend l))) = nLoad l)
      by (unfold addLoadend; destruct l; cbn in *; subst;
          destruct (_ =? _); reflexivity).
    destruct (addLoadend l) as [[l1 tr1] c1]. cbn [fst snd] in *.
    rewrite H1, H2, H3, H4. fold M.
    destruct (nLoadend l + 1 =? 2 * M); repeat split; try reflexivity; lia.
Qed.

Lemma deliverAll_counts signals :
  forall l data,
    inputData l = Some data ->
    let M := Z.of_nat (length data) in
    let r := deliverAll signals l in
    inputData (fst r) = Some data /\
    nLoad (fst r) = nLoad l + signalCount isLoad signals /\
    nLoadend (fst r) = nLoadend l + signalCount isLoadend signals /\
    Z.of_nat (countSlot onloaditem (snd r)) = signalCount isLoadItem signals /\
    countSlot onload (snd r)
    = (if (nLoad l <? M) && (M <=? nLoad l + signalCount isLoad signals)
       then 1%nat else 0%nat) /\
    countSlot onloadend (snd r)
    = (if (nLoadend l <? 2 * M)
          && (2 * M <=? nLoadend l + signalCount isLoadend signals)
       then 1%nat else 0%nat).
Proof.
  induction signals as [|s signals IH]; intros l data Hd M; cbn [deliverAll].
  - unfold signalCount; cbn. split; [exact Hd|].
    repeat match goal with
      | |- context [Z.ltb ?a ?b] => destruct (Z.ltb_spec a b)
      | |- context [Z.leb ?a ?b] => destruct (Z.leb_spec a b)
      end;
      cbn [andb]; repeat split; lia.
  - destruct (deliver_fields s l data Hd) as (H1 & H2 & H3 & H4 & H5 & H6).
    destruct (deliver s l) as [l1 tr1]. cbn [fst snd] in *.
    destruct (IH l1 data H1) as (I1 & I2 & I3 & I4 & I5 & I6).
    destruct (deliverAll signals l1) as [l2 tr2]. cbn [fst snd] in *.
    rewrite !loader_countSlot_app, H4, H5, H6, I5, I6, I2, I3, H2, H3.
    fold M. unfold signalCount in *. cbn [List.filter].
    split; [exact I1|].
    destruct s as [event| |]; cbn [isLoad isLoadend isLoadItem andb length];
      repeat match goal with
        | |- context [Z.eqb ?a ?b] => destruct (Z.eqb_spec a b)
        | |- context [Z.ltb ?a ?b] => destruct (Z.ltb_spec a b)
        | |- context [Z.leb ?a ?b] => destruct (Z.leb_spec a b)
        end;
      cbn [andb]; repeat split; lia.
Qed.

End LoaderSignals.

(** X10.  After [#storeInputData] stored [M >= 1] files, and whatever the
    order in which the load, load-item and load-end signals arrive:
    [onloaditem] is invoked once per load-item signal, [onload] once in
    all if at least [M] load signals arrived and never otherwise, and
    [onloadend] once in all if at least [2 * M] load-end signals arrived
    and never otherwise.  The two counters do not disturb each other. *)
Theorem loader_signals_counts (l : FilesLoader.t)
    (data : list FilesLoader.File) (signals : list FilesLoaderLoad.Signal) :
  data <> [] ->
  let M := Z.of_nat (length data) in
  let r := FilesLoaderLoad.deliverAll signals
             (FilesLoader.storeInputData data l) in
  FilesLoader.nLoad (fst r) = signalCount FilesLoaderLoad.isLoad signals /\
  FilesLoader.nLoadend (fst r) = signalCount FilesLoaderLoad.isLoadend signals /\
  Z.of_nat (FilesLoaderLoad.countSlot FilesLoader.onloaditem (snd r))
  = signalCount FilesLoaderLoad.isLoadItem signals /\
  FilesLoaderLoad.countSlot FilesLoader.onload (snd r)
  = (if M <=? signalCount FilesLoaderLoad.isLoad signals then 1%nat else 0%nat) /\
  FilesLoaderLoad.countSlot FilesLoader.onloadend (snd r)
  = (if 2 * M <=? signalCount FilesLoaderLoad.isLoadend signals
     then 1%nat else 0%nat).
Proof.
  intros Hne M r.
  assert (HM : 0 < M) by (subst M; destruct data; [congruence | cbn; lia]).
  destruct (deliverAll_counts signals (FilesLoader.storeInputData data l) data
              eq_refl) as (_ & H2 & H3 & H4 & H5 & H6).
  fold r M in H2, H3, H4, H5, H6. cbn in H2, H3, H5, H6.
  replace (0 <? M) with true in H5 by (symmetry; apply Z.ltb_lt; lia).
  replace (0 <? 2 * M) with true in H6 by (symmetry; apply Z.ltb_lt; lia).
  repeat split; assumption.
Qed.

Lemma loader_signals_counts_witness :
  let data := [FilesLoader.mkFile "a.dcm"; FilesLoader.mkFile "b.dcm"] in
  let signals :=
    [FilesLoaderLoad.Loadend; FilesLoaderLoad.Load; FilesLoaderLoad.Loadend;
     FilesLoaderLoad.Loadend; FilesLoaderLoad.Load; FilesLoaderLoad.Loadend] in
  let r := FilesLoaderLoad.deliverAll signals
             (FilesLoader.storeInputData data FilesLoader.new) in
  data <> [] /\
  FilesLoaderLoad.countSlot FilesLoader.onload (snd r) = 1%nat /\
  FilesLoaderLoad.countSlot FilesLoader.onloadend (snd r) = 1%nat.
Proof.
  intros data signals r.
  assert (Hne : data <> []) by discriminate.
  split; [exact Hne|].
  destruct (loader_signals_counts FilesLoader.new data signals Hne)
    as (_ & _ & _ & H1 & H2).
  split; [exact H1 | exact H2].
Defined.

Section Load.

Import FilesLoader.
Import FilesLoaderLoad.

(** The loop on the input elements: the readers of the files that the
    loader can load are launched and stored before the rest is looked at. *)
Lemma launchReaders_app loader ok :
  forall i rest l,
    forallb (canLoadFile loader) ok = true ->
    launchReaders loader i (ok ++ rest) l
    = (let r := launchReaders loader (i + length ok) rest
                  (withStored (readers l ++ seq i (length ok))
                     (runningLoader l) l) in
       (fst (fst r), reads loader i ok ++ snd (fst r), snd r)).
Proof.
  induction ok as [|file ok IH]; intros i rest l Hok.
  - cbn [app length seq]. rewrite Nat.add_0_r, app_nil_r.
    unfold reads; cbn.
    replace (withStored (readers l) (runningLoader l) l) with l
      by (destruct l; reflexivity).
    destruct (launchReaders loader i rest l) as [[l' acts] c]. reflexivity.
  - cbn [forallb] in Hok. apply andb_prop in Hok as [Hfile Hok].
    cbn [app launchReaders]. rewrite Hfile. cbn [negb].
    rewrite (IH (S i) rest (storeReader i l) Hok).
    cbn [length seq].
    replace (withStored (readers (storeReader i l) ++ seq (S i) (length ok))
               (runningLoader (storeReader i l)) (storeReader i l))
      with (withStored (readers l ++ i :: seq (S i) (length ok))
              (runningLoader l) l)
      by (destruct l; unfold withStored, storeReader; cbn;
          rewrite <- app_assoc; reflexivity).
    replace (S i + length ok)%nat with (i + S (length ok))%nat by lia.
    destruct (launchReaders loader (i + S (length ok)) rest _) as [[l' acts] c].
    cbn [fst snd]. f_equal. f_equal.
    unfold reads. cbn [imap concat]. rewrite Nat.add_0_r, <- app_assoc.
    f_equal. f_equal. f_equal. apply imap_ext. intros j x _. cbn.
    f_equal. lia.
Qed.

(** The loader [load] runs: the first of the list that can load the first
    file. *)
Lemma findLoader_first before loader after dataElement :
  forall index,
    Forall (fun other => canLoadFile other dataElement = false) before ->
    canLoadFile loader dataElement = true ->
    findLoader (before ++ loader :: after) index dataElement
    = Some ((index + length before)%nat, loader).
Proof.
  induction before as [|other before IH]; intros index Hb Hl; cbn.
  - rewrite Hl, Nat.add_0_r. reflexivity.
  - apply Forall_cons in Hb as [Ho Hb]. rewrite Ho.
    rewrite (IH (S index) Hb Hl). f_equal. f_equal. lia.
Qed.

Lemma findLoader_none loaders dataElement :
  forall index,
    Forall (fun other => canLoadFile other dataElement = false) loaders ->
    findLoader loaders index dataElement = None.
Proof.
  induction loaders as [|other loaders IH]; intros index Hb; cbn;
    [reflexivity|].
  apply Forall_cons in Hb as [Ho Hb]. rewrite Ho. apply IH. exact Hb.
Qed.

(** The reads of a loader whose [read] starts one action per file, and
    of one whose [read] starts none. *)
Lemma reads_single loader action data :
  (forall j file, read loader j file = [action j file]) ->
  reads loader 0 data = imap action data.
Proof.
  intros Hread. unfold reads. cbn [Nat.add].
  assert (Hgen : forall (f : nat -> File -> list Action) g,
            (forall j file, f j file = [g j file]) ->
            concat (imap f data) = imap g data).
  { induction data as [|file data IH]; intros f g Hfg; [reflexivity|].
    cbn [imap concat]. rewrite Hfg. cbn [app]. f_equal.
    apply IH. intros j x. apply Hfg. }
  apply Hgen. exact Hread.
Qed.

Lemma reads_none loader data :
  (forall j file, read loader j file = []) ->
  reads loader 0 data = [].
Proof.
  intros Hread. unfold reads. cbn [Nat.add].
  assert (Hgen : forall (f : nat -> File -> list Action),
            (forall j file, f j file = []) -> concat (imap f data) = []).
  { induction data as [|file data IH]; intros f Hf; [reflexivity|].
    cbn [imap concat]. rewrite Hf. cbn [app]. apply IH.
    intros j x. apply Hf. }
  apply Hgen. exact Hread.
Qed.

End Load.

(** X11.  A successful [load]: when [loader] is the first of the loader
    list that can load the first file, and it can load every file, [load]
    returns after storing the input, zeroing the two counters, replacing
    whatever readers and loader were stored by the [M] new readers (in
    input order) and that loader, and sending the load-start event first.
    The reads it starts depend on what [loadFileAs] returns: for [Text],
    [DataURL] or [ArrayBuffer], one read of that kind per file, in input
    order; for any other value no read at all, the readers being stored
    all the same. *)
Theorem load_launches_every_reader
    (before after : list FilesLoaderLoad.LoaderClass)
    (loader : FilesLoaderLoad.LoaderClass) (onloadstart : Handler)
    (first : FilesLoader.File) (others : list FilesLoader.File)
    (l : FilesLoader.t) :
  Forall (fun other => FilesLoaderLoad.canLoadFile other first = false) before ->
  forallb (FilesLoaderLoad.canLoadFile loader) (first :: others) = true ->
  let data := first :: others in
  let index := length before in
  FilesLoaderLoad.load (before ++ loader :: after) onloadstart (Some data) l
  = (withStored (seq 0 (length data)) (Some index)
       (FilesLoader.storeInputData data l),
     FilesLoaderLoad.Loadstart onloadstart data
       :: FilesLoaderLoad.OnloadIs index
            (negb (FilesLoaderLoad.definesOnloaditem loader))
       :: reads loader 0 data,
     Returned) /\
  (FilesLoaderLoad.loadFileAs loader = FilesLoaderLoad.Text ->
   reads loader 0 data = imap FilesLoaderLoad.ReadAsText data) /\
  (FilesLoaderLoad.loadFileAs loader = FilesLoaderLoad.DataURL ->
   reads loader 0 data = imap FilesLoaderLoad.ReadAsDataURL data) /\
  (FilesLoaderLoad.loadFileAs loader = FilesLoaderLoad.ArrayBuffer ->
   reads loader 0 data = imap FilesLoaderLoad.ReadAsArrayBuffer data) /\
  (FilesLoaderLoad.loadFileAs loader <> FilesLoaderLoad.Text ->
   FilesLoaderLoad.loadFileAs loader <> FilesLoaderLoad.DataURL ->
   FilesLoaderLoad.loadFileAs loader <> FilesLoaderLoad.ArrayBuffer ->
   reads loader 0 data = []).
Proof.
  intros Hb Hall data index. split.
  - assert (Hfirst : FilesLoaderLoad.canLoadFile loader first = true)
      by (cbn [forallb] in Hall; apply andb_prop in Hall; tauto).
    subst data index. unfold FilesLoaderLoad.load. cbv beta iota.
    rewrite (findLoader_first before loader after first 0 Hb Hfirst).
    cbn [Nat.add].
    pose proof (launchReaders_app loader (first :: others) 0 []
                  (FilesLoaderLoad.storeLoader (length before)
                     (FilesLoader.storeInputData (first :: others) l)) Hall)
      as H.
    rewrite app_nil_r in H. rewrite H.
    cbn [FilesLoaderLoad.launchReaders fst snd]. rewrite app_nil_r.
    reflexivity.
  - split; [|split; [|split]].
    + intros Ht. apply reads_single. intros j file.
      unfold FilesLoaderLoad.read. rewrite Ht. reflexivity.
    + intros Ht. apply reads_single. intros j file.
      unfold FilesLoaderLoad.read. rewrite Ht. reflexivity.
    + intros Ht. apply reads_single. intros j file.
      unfold FilesLoaderLoad.read. rewrite Ht. reflexivity.
    + intros H1 H2 H3. apply reads_none.
      unfold FilesLoaderLoad.read.
      destruct (Z.eqb_spec (FilesLoaderLoad.loadFileAs loader)
                  FilesLoaderLoad.Text); [contradiction|].
      destruct (Z.eqb_spec (FilesLoaderLoad.loadFileAs loader)
                  FilesLoaderLoad.DataURL); [contradiction|].
      destruct (Z.eqb_spec (FilesLoaderLoad.loadFileAs loader)
                  FilesLoaderLoad.ArrayBuffer); [contradiction|].
      intros; reflexivity.
Qed.

Lemma load_launches_every_reader_witness :
  let data := [FilesLoader.mkFile "a.json"; FilesLoader.mkFile "b.json"] in
  forallb (hasSuffix ".json") data = true /\
  FilesLoaderLoad.load sampleLoaders (handler 1) (Some data) FilesLoader.new
  = (FilesLoader.mk (Some data) [0%nat; 1%nat] (Some 1%nat) 0 0 noop noop noop,
     [FilesLoaderLoad.Loadstart (handler 1) data;
      FilesLoaderLoad.OnloadIs 1%nat true;
      FilesLoaderLoad.ReadAsText 0%nat (FilesLoader.mkFile "a.json");
      FilesLoaderLoad.ReadAsText 1%nat (FilesLoader.mkFile "b.json")],
     Returned).
Proof.
  intros data. split; [reflexivity|].
  refine (proj1 (load_launches_every_reader
           [FilesLoaderLoad.mkLoaderClass (hasSuffix ".dcm")
              FilesLoaderLoad.ArrayBuffer true]
           []
           (FilesLoaderLoad.mkLoaderClass (hasSuffix ".json")
              FilesLoaderLoad.Text false)
           (handler 1) (FilesLoader.mkFile "a.json")
           [FilesLoader.mkFile "b.json"] FilesLoader.new _ eq_refl)).
  repeat constructor.
Defined.

(** X12.  A [load] of files of different types: when the running loader
    can load the files [ok] but not the next one, [load] throws an [Error]
    after the load-start event and after launching and storing the readers
    of [ok], which it leaves running; nothing is launched for the
    offending file and those after it. *)
Theorem load_stops_at_other_type
    (before after : list FilesLoaderLoad.LoaderClass)
    (loader : FilesLoaderLoad.LoaderClass) (onloadstart : Handler)
    (first : FilesLoader.File) (ok : list FilesLoader.File)
    (bad : FilesLoader.File) (rest : list FilesLoader.File)
    (l : FilesLoader.t) :
  Forall (fun other => FilesLoaderLoad.canLoadFile other first = false) before ->
  forallb (FilesLoaderLoad.canLoadFile loader) (first :: ok) = true ->
  FilesLoaderLoad.canLoadFile loader bad = false ->
  let data := (first :: ok) ++ bad :: rest in
  let index := length before in
  FilesLoaderLoad.load (before ++ loader :: after) onloadstart (Some data) l
  = (withStored (seq 0 (length (first :: ok))) (Some index)
       (FilesLoader.storeInputData data l),
     FilesLoaderLoad.Loadstart onloadstart data
       :: FilesLoaderLoad.OnloadIs index
            (negb (FilesLoaderLoad.definesOnloaditem loader))
       :: reads loader 0 (first :: ok),
     Thrown (Error "Input file of different type: [object File]")).
Proof.
  intros Hb Hall Hbad data index.
  assert (Hfirst : FilesLoaderLoad.canLoadFile loader first = true)
    by (cbn [forallb] in Hall; apply andb_prop in Hall; tauto).
  subst data index. unfold FilesLoaderLoad.load. cbn [app]. cbv beta iota.
  rewrite (findLoader_first before loader after first 0 Hb Hfirst).
  cbn [Nat.add].
  change (first :: ok ++ bad :: rest) with ((first :: ok) ++ bad :: rest).
  rewrite (launchReaders_app loader (first :: ok) 0 (bad :: rest) _ Hall).
  cbn [FilesLoaderLoad.launchReaders]. rewrite Hbad.
  cbn [negb fst snd]. rewrite app_nil_r. reflexivity.
Qed.

Lemma load_stops_at_other_type_witness :
  let data := [FilesLoader.mkFile "a.dcm"; FilesLoader.mkFile "b.json";
               FilesLoader.mkFile "c.dcm"] in
  hasSuffix ".dcm" (FilesLoader.mkFile "b.json") = false /\
  FilesLoaderLoad.load sampleLoaders noop (Some data) FilesLoader.new
  = (FilesLoader.mk (Some data) [0%nat] (Some 0%nat) 0 0 noop noop noop,
     [FilesLoaderLoad.Loadstart noop data;
      FilesLoaderLoad.OnloadIs 0%nat false;
      FilesLoaderLoad.ReadAsArrayBuffer 0%nat (FilesLoader.mkFile "a.dcm")],
     Thrown (Error "Input file of different type: [object File]")).
Proof.
  intros data. split; [reflexivity|].
  apply (load_stops_at_other_type []
           [FilesLoaderLoad.mkLoaderClass (hasSuffix ".json")
              FilesLoaderLoad.Text false]
           (FilesLoaderLoad.mkLoaderClass (hasSuffix ".dcm")
              FilesLoaderLoad.ArrayBuffer true)
           noop (FilesLoader.mkFile "a.dcm") [] (FilesLoader.mkFile "b.json")
           [FilesLoader.mkFile "c.dcm"] FilesLoader.new).
  - constructor.
  - reflexivity.
  - reflexivity.
Defined.

(** X13.  A [load] for which no loader is found: when no loader of the
    list can load the first file, [load] throws an [Error] naming that
    file.  By then the input is stored, the counters are zeroed, the
    readers and loader of an earlier load are forgotten and the load-start
    event has been sent; no reader is launched.  An [undefined] or empty
    input does nothing at all. *)
Theorem load_without_loader (loaderList : list FilesLoaderLoad.LoaderClass)
    (onloadstart : Handler) (first : FilesLoader.File)
    (others : list FilesLoader.File) (l : FilesLoader.t) :
  Forall (fun other => FilesLoaderLoad.canLoadFile other first = false)
    loaderList ->
  let data := first :: others in
  FilesLoaderLoad.load loaderList onloadstart (Some data) l
  = (FilesLoader.mk (Some data) [] None 0 0 (FilesLoader.cb_onloaditem l)
       (FilesLoader.cb_onload l) (FilesLoader.cb_onloadend l),
     [FilesLoaderLoad.Loadstart onloadstart data],
     Thrown (Error (String.append "No loader found for file: "
                      (FilesLoader.file_name first)))) /\
  FilesLoaderLoad.load loaderList onloadstart None l = (l, [], Returned) /\
  FilesLoaderLoad.load loaderList onloadstart (Some []) l = (l, [], Returned).
Proof.
  intros Hnone data. split; [|split; reflexivity].
  subst data. unfold FilesLoaderLoad.load. cbv beta iota.
  rewrite (findLoader_none loaderList first 0 Hnone). reflexivity.
Qed.

Lemma load_without_loader_witness :
  let data := [FilesLoader.mkFile "notes.txt"] in
  FilesLoaderLoad.load sampleLoaders noop (Some data) FilesLoader.new
  = (FilesLoader.mk (Some data) [] None 0 0 noop noop noop,
     [FilesLoaderLoad.Loadstart noop data],
     Thrown (Error "No loader found for file: notes.txt")).
Proof.
  intros data.
  apply (load_without_loader sampleLoaders noop (FilesLoader.mkFile "notes.txt")
           [] FilesLoader.new).
  repeat constructor.
Defined.

(** X14.  [load] and the signals together: after a successful [load] of
    [M] files, whatever the loader held before (counters of an earlier
    batch included), [onload] is invoked once in all when [M] load signals
    have arrived and [onloadend] once in all when [2 * M] load-end signals
    have, in any order, and never before. *)
Theorem load_then_signals
    (before after : list FilesLoaderLoad.LoaderClass)
    (loader : FilesLoaderLoad.LoaderClass) (onloadstart : Handler)
    (first : FilesLoader.File) (others : list FilesLoader.File)
    (l : FilesLoader.t) (signals : list FilesLoaderLoad.Signal) :
  Forall (fun other => FilesLoaderLoad.canLoadFile other first = false) before ->
  forallb (FilesLoaderLoad.canLoadFile loader) (first :: others) = true ->
  let data := first :: others in
  let M := Z.of_nat (length data) in
  let loaded :=
    FilesLoaderLoad.load (before ++ loader :: after) onloadstart (Some data) l in
  let r := FilesLoaderLoad.deliverAll signals (fst (fst loaded)) in
  snd loaded = Returned /\
  FilesLoaderLoad.countSlot FilesLoader.onload (snd r)
  = (if M <=? signalCount FilesLoaderLoad.isLoad signals
     then 1%nat else 0%nat) /\
  FilesLoaderLoad.countSlot FilesLoader.onloadend (snd r)
  = (if 2 * M <=? signalCount FilesLoaderLoad.isLoadend signals
     then 1%nat else 0%nat).
Proof.
  intros Hb Hall data M loaded r.
  assert (Hfirst : FilesLoaderLoad.canLoadFile loader first = true)
    by (cbn [forallb] in Hall; apply andb_prop in Hall; tauto).
  assert (Hloaded :
            loaded
            = (withStored (seq 0 (length data)) (Some (length before))
                 (FilesLoader.storeInputData data l),
               FilesLoaderLoad.Loadstart onloadstart data
                 :: FilesLoaderLoad.OnloadIs (length before)
                      (negb (FilesLoaderLoad.definesOnloaditem loader))
                 :: reads loader 0 data,
               Returned)).
  { subst loaded data. unfold FilesLoaderLoad.load. cbv beta iota.
    rewrite (findLoader_first before loader after first 0 Hb Hfirst).
    cbn [Nat.add].
    pose proof (launchReaders_app loader (first :: others) 0 []
                  (FilesLoaderLoad.storeLoader (length before)
                     (FilesLoader.storeInputData (first :: others) l)) Hall)
      as H.
    rewrite app_nil_r in H. rewrite H.
    cbn [FilesLoaderLoad.launchReaders fst snd]. rewrite app_nil_r.
    reflexivity. }
  subst r. rewrite Hloaded. cbn [fst snd]. split; [reflexivity|].
  destruct (deliverAll_counts signals
              (withStored (seq 0 (length data)) (Some (length before))
                 (FilesLoader.storeInputData data l)) data eq_refl)
    as (_ & _ & _ & _ & H5 & H6).
  fold M in H5, H6. cbn in H5, H6.
  assert (HM : 0 < M) by (subst M data; cbn; lia).
  replace (0 <? M) with true in H5 by (symmetry; apply Z.ltb_lt; lia).
  replace (0 <? 2 * M) with true in H6 by (symmetry; apply Z.ltb_lt; lia).
  split; assumption.
Qed.

Lemma load_then_signals_witness :
  let data := [FilesLoader.mkFile "a.json"; FilesLoader.mkFile "b.json"] in
  let busy := FilesLoader.mk (Some [FilesLoader.mkFile "old.dcm"]) [0%nat]
                (Some 0%nat) 1 1 noop noop noop in
  let loaded := FilesLoaderLoad.load sampleLoaders noop (Some data) busy in
  let signals :=
    [FilesLoaderLoad.Loadend; FilesLoaderLoad.Loadend; FilesLoaderLoad.Loadend] in
  forallb (hasSuffix ".json") data = true /\
  FilesLoaderLoad.countSlot FilesLoader.onloadend
    (snd (FilesLoaderLoad.deliverAll signals (fst (fst loaded)))) = 0%nat.
Proof.
  intros data busy loaded signals. split; [reflexivity|].
  refine (proj2 (proj2 (load_then_signals
           [FilesLoaderLoad.mkLoaderClass (hasSuffix ".dcm")
              FilesLoaderLoad.ArrayBuffer true]
           []
           (FilesLoaderLoad.mkLoaderClass (hasSuffix ".json")
              FilesLoaderLoad.Text false)
           noop (FilesLoader.mkFile "a.json") [FilesLoader.mkFile "b.json"]
           busy signals _ eq_refl))).
  repeat constructor.
Defined.

(** ** More on the decoders *)

Section SynchOnce.
Variable E : Engines.

Import SynchPixelBufferDecoder.

(** The closing pair is invoked by the call that brings the count to the
    expected total, if that call returns, and by no other. *)
Lemma decodeAll_closing algo K cbs calls :
  forall c,
    let trace := concat (map fst (snd (decodeAll E (mk algo K c cbs) calls))) in
    countSlot ondecoded trace
    = (if c <? K then
         match calls !! Z.to_nat (K - c - 1) with
         | Some a => if returns E algo a then 1%nat else 0%nat
         | None => 0%nat
         end
       else 0%nat) /\
    countSlot ondecodeend trace = countSlot ondecoded trace.
Proof.
  induction calls as [|a calls IH]; intros c; cbn [decodeAll].
  - cbn. destruct (c <? K); split; reflexivity.
  - pose proof (synch_decode_state E (mk algo K c cbs) (arg_pixelBuffer a)
                  (arg_pixelMeta a) (arg_info a)) as Hs.
    assert (Htr :
      traceOf (decode E (mk algo K c cbs) (arg_pixelBuffer a)
                 (arg_pixelMeta a) (arg_info a))
      = match decodedBuffer E algo (arg_pixelBuffer a) (arg_pixelMeta a) with
        | Ok b => itemCall cbs b a :: (if c + 1 =? K then endCalls cbs else [])
        | Throw _ => []
        end).
    { destruct (decodedBuffer E algo (arg_pixelBuffer a) (arg_pixelMeta a))
        as [b|e] eqn:Hb.
      - rewrite (synch_decode_ok E (mk algo K c cbs) _ _ (arg_info a) b Hb).
        destruct a; reflexivity.
      - rewrite (synch_decode_throw E (mk algo K c cbs) _ _ (arg_info a) e Hb).
        reflexivity. }
    destruct (decode E (mk algo K c cbs) _ _ _) as [[d1 tr1] c1].
    unfold stateOf, traceOf in Hs, Htr; cbn [fst snd] in Hs, Htr.
    cbn [algoName numberOfData decodeCount callbacks] in Hs. subst d1.
    specialize (IH (c + 1)).
    destruct (decodeAll E (mk algo K (c + 1) cbs) calls) as [d2 rs].
    cbn [snd map fst concat] in IH |- *. destruct IH as [IH1 IH2].
    rewrite !countSlot_app, IH2, IH1, Htr. unfold returns.
    destruct (Z.ltb_spec c K) as [Hlt|Hge].
    + destruct (Z.eqb_spec (c + 1) K) as [Heq|Hne].
      * replace (Z.to_nat (K - c - 1)) with 0%nat by lia.
        replace (c + 1 <? K) with false by (symmetry; apply Z.ltb_ge; lia).
        cbn [lookup list_lookup].
        destruct (decodedBuffer E algo (arg_pixelBuffer a) (arg_pixelMeta a));
          split; reflexivity.
      * replace (c + 1 <? K) with true by (symmetry; apply Z.ltb_lt; lia).
        replace (Z.to_nat (K - c - 1)) with (S (Z.to_nat (K - (c + 1) - 1)))
          by lia.
        change ((a :: calls) !! S (Z.to_nat (K - (c + 1) - 1)))
          with (calls !! Z.to_nat (K - (c + 1) - 1)).
        destruct (decodedBuffer E algo (arg_pixelBuffer a) (arg_pixelMeta a));
          split; reflexivity.
    + replace (c + 1 <? K) with false by (symmetry; apply Z.ltb_ge; lia).
      replace (c + 1 =? K) with false by (symmetry; apply Z.eqb_neq; lia).
      destruct (decodedBuffer E algo (arg_pixelBuffer a) (arg_pixelMeta a));
        split; reflexivity.
Qed.

End SynchOnce.

(** X15.  On a new synchronous decoder expecting [K] items, and for any
    series of calls (more or fewer than [K], some throwing): the
    all-decoded and decode-end callbacks are invoked together, at most once
    in all, by the [K]-th call and only if that call returns.  They are
    never invoked when [K <= 0], when fewer than [K] calls are made, or
    when the [K]-th call throws, whatever later calls do. *)
Theorem synch_closing_events_once (E : Engines) (algo : string) (K : Z)
    (cbs : Callbacks) (calls : list DecodeArgs) :
  let d0 := SynchPixelBufferDecoder.setCallbacks cbs
              (SynchPixelBufferDecoder.new algo K) in
  let trace := concat (map fst (snd (decodeAll E d0 calls))) in
  countSlot ondecoded trace
  = (if 0 <? K then
       match calls !! Z.to_nat (K - 1) with
       | Some a => if returns E algo a then 1%nat else 0%nat
       | None => 0%nat
       end
     else 0%nat) /\
  countSlot ondecodeend trace = countSlot ondecoded trace /\
  (countSlot ondecoded trace <= 1)%nat.
Proof.
  intros d0 trace.
  destruct (decodeAll_closing E algo K cbs calls 0) as [H1 H2].
  subst trace d0. unfold SynchPixelBufferDecoder.setCallbacks; cbn.
  cbn in H1, H2. rewrite Z.sub_0_r in H1.
  split; [exact H1|]. split; [exact H2|]. rewrite H1.
  destruct (0 <? K); [|lia].
  destruct (calls !! Z.to_nat (K - 1)) as [a|]; [|lia].
  destruct (returns E algo a); lia.
Qed.

Section FacadeSynch.
Variable E : Engines.
Variable T : ThreadPool.

Import PixelBufferDecoder.

Lemma decodedBuffer_missing algo pb pm message :
  (algo = "jpeg2000" /\ hasJpeg2000Decoder E = false /\
   message = "No JPEG 2000 decoder provided") \/
  (algo = "jpeg-lossless" /\ hasJpegLosslessDecoder E = false /\
   message = "No JPEG Lossless decoder provided") \/
  (algo = "jpeg-baseline" /\ hasJpegBaselineDecoder E = false /\
   message = "No JPEG Baseline decoder provided") ->
  SynchPixelBufferDecoder.decodedBuffer E algo pb pm = Throw (Error message).
Proof.
  unfold SynchPixelBufferDecoder.decodedBuffer.
  intros [(-> & -> & ->)|[(-> & -> & ->)|(-> & -> & ->)]]; reflexivity.
Qed.

(** The three algorithms that need an engine are not inherited names. *)
Lemma engine_names_own algo message :
  (algo = "jpeg2000" /\ hasJpeg2000Decoder E = false /\
   message = "No JPEG 2000 decoder provided") \/
  (algo = "jpeg-lossless" /\ hasJpegLosslessDecoder E = false /\
   message = "No JPEG Lossless decoder provided") \/
  (algo = "jpeg-baseline" /\ hasJpegBaselineDecoder E = false /\
   message = "No JPEG Baseline decoder provided") ->
  ~ In algo objectPrototype.
Proof.
  intros [(-> & _)|[(-> & _)|(-> & _)]]; cbn; intuition discriminate.
Qed.

(** Without a script of its own or an inherited member under the name of
    the algorithm, the delegate is, and stays, a synchronous decoder for
    the algorithm. *)
Lemma run_synch scripts algo n (ops : list (Op T)) :
  scripts !! algo = None ->
  ~ In algo objectPrototype ->
  exists s,
    pixelDecoder T (decoder (fst (run E (mkWorld scripts (new T scripts algo n)) ops)))
    = Synch T s /\
    SynchPixelBufferDecoder.algoName s = algo /\
    SynchPixelBufferDecoder.numberOfData s = n.
Proof.
  intros Hnone Hown.
  pose proof (run_routedAs E T (decoderScript scripts algo) algo n ops
                (mkWorld scripts (new T scripts algo n))
                (new_routedAs T scripts algo n)) as Hr.
  rewrite (decoderScript_own scripts algo Hown), Hnone in Hr.
  destruct (pixelDecoder T _) as [a|s]; [destruct Hr | eauto].
Qed.

(** In synchronous mode a step invokes decoder callbacks only, and neither
    the decode-start nor the error one. *)
Lemma step_synch_slots (w : World T) o s :
  pixelDecoder T (decoder w) = Synch T s ->
  Forall (fun call => exists slot h e,
            call = Invoke slot h e /\ slot <> ondecodestart /\ slot <> onerror)
    (snd (step E w o)).
Proof.
  intros Hs. destruct o as [a| |slot h|k sc|k|m]; cbn [step].
  - rewrite decode_unfold. cbn [snd].
    destruct (setCallbacks_fields T (decoder w)) as (_ & _ & _ & _ & Hp).
    rewrite Hp, Hs.
    assert (Hany : forall s0,
              Forall (fun call => exists slot h e,
                        call = Invoke slot h e /\ slot <> ondecodestart /\
                        slot <> onerror)
                (traceOf (SynchPixelBufferDecoder.decode E s0
                            (arg_pixelBuffer a) (arg_pixelMeta a) (arg_info a)))).
    { intros s0.
      destruct (SynchPixelBufferDecoder.decodedBuffer E
                  (SynchPixelBufferDecoder.algoName s0) (arg_pixelBuffer a)
                  (arg_pixelMeta a)) as [b|e] eqn:Hb.
      - rewrite (synch_decode_ok E s0 _ _ (arg_info a) b Hb).
        unfold traceOf; cbn [fst snd].
        destruct (_ =? _); repeat constructor; eexists _, _, _;
          (split; [reflexivity|]); split; discriminate.
      - rewrite (synch_decode_throw E s0 _ _ (arg_info a) e Hb). constructor. }
    destruct (areCallbacksSet T (decoder w)); cbn [setDelegateCallbacks delegateDecode].
    + specialize (Hany s).
      destruct (SynchPixelBufferDecoder.decode E s _ _ _) as [[s' tr] cpl].
      exact Hany.
    + specialize (Hany (SynchPixelBufferDecoder.setCallbacks
                          (callbacks T (decoder w)) s)).
      destruct (SynchPixelBufferDecoder.decode E _ _ _ _) as [[s' tr] cpl].
      exact Hany.
  - unfold abort, delegateAbort. rewrite Hs. cbn.
    repeat constructor; eexists _, _, _; (split; [reflexivity|]);
      split; discriminate.
  - constructor.
  - constructor.
  - constructor.
  - unfold signal. rewrite Hs. constructor.
Qed.

End FacadeSynch.

(** X16.  A first [decode] that fails still binds: on a facade in
    synchronous mode whose algorithm lacks its engine, the first [decode]
    throws the engine's [Error] and invokes nothing, yet it has closed the
    guard and given the delegate the callbacks the facade held; handlers
    assigned after that failed call are not taken into account. *)
Theorem failed_first_decode_binds (E : Engines) (T : ThreadPool)
    (scripts : gmap string string) (algo : string) (n : Z)
    (pre : list (Op T)) (first : DecodeArgs) (message : string) :
  scripts !! algo = None ->
  (algo = "jpeg2000" /\ hasJpeg2000Decoder E = false /\
   message = "No JPEG 2000 decoder provided") \/
  (algo = "jpeg-lossless" /\ hasJpegLosslessDecoder E = false /\
   message = "No JPEG Lossless decoder provided") \/
  (algo = "jpeg-baseline" /\ hasJpegBaselineDecoder E = false /\
   message = "No JPEG Baseline decoder provided") ->
  forallb (fun o => negb (isDecode o)) pre = true ->
  let d0 := decoder (fst (run E
              (mkWorld scripts (PixelBufferDecoder.new T scripts algo n)) pre)) in
  let r := PixelBufferDecoder.decode E T d0 (arg_pixelBuffer first)
             (arg_pixelMeta first) (arg_info first) in
  completionOf r = Thrown (Error message) /\
  traceOf r = [] /\
  PixelBufferDecoder.areCallbacksSet T (stateOf r) = true /\
  PixelBufferDecoder.delegateCallbacks T
    (PixelBufferDecoder.pixelDecoder T (stateOf r))
  = PixelBufferDecoder.callbacks T d0.
Proof.
  intros Hnone Hmissing Hpre d0 r.
  destruct (run_pristine E T pre
              (mkWorld scripts (PixelBufferDecoder.new T scripts algo n))
              Hpre (new_pristine T scripts algo n)) as [Hp0 _].
  fold d0 in Hp0.
  destruct (decode_pristine E T d0 (arg_pixelBuffer first)
              (arg_pixelMeta first) (arg_info first) Hp0) as [Hb _].
  fold r in Hb.
  destruct (run_synch E T scripts algo n pre Hnone
              (engine_names_own E algo message Hmissing))
    as (s & Hs & Halgo & _).
  fold d0 in Hs.
  assert (Hr : completionOf r = Thrown (Error message) /\ traceOf r = []).
  { subst r. rewrite decode_unfold.
    destruct (setCallbacks_fields T d0) as (_ & _ & _ & _ & Hp).
    rewrite (proj1 Hp0), Hs in Hp. rewrite Hp.
    cbn [PixelBufferDecoder.setDelegateCallbacks
         PixelBufferDecoder.delegateDecode].
    rewrite (synch_decode_throw E _ _ _ (arg_info first) (Error message)).
    - split; reflexivity.
    - cbn. rewrite Halgo. apply decodedBuffer_missing. exact Hmissing. }
  split; [exact (proj1 Hr)|]. split; [exact (proj2 Hr)|].
  split; [exact (proj1 Hb)|].
  apply bound_delegateCallbacks. exact Hb.
Qed.

Lemma failed_first_decode_binds_witness :
  let pre : list (Op queuePool) := [OpAssign onerror (handler 5)] in
  let d0 := decoder (fst (run bareHost
              (mkWorld ∅ (PixelBufferDecoder.new queuePool ∅ "jpeg2000" 1)) pre)) in
  let r := PixelBufferDecoder.decode bareHost queuePool d0
             (arg_pixelBuffer (frame 0)) (arg_pixelMeta (frame 0))
             (arg_info (frame 0)) in
  completionOf r = Thrown (Error "No JPEG 2000 decoder provided") /\
  PixelBufferDecoder.areCallbacksSet queuePool (stateOf r) = true.
Proof.
  intros pre d0 r.
  destruct (failed_first_decode_binds bareHost queuePool ∅ "jpeg2000" 1 pre
              (frame 0) "No JPEG 2000 decoder provided")
    as (H1 & _ & H3 & _).
  - reflexivity.
  - left. repeat split.
  - reflexivity.
  - split; [exact H1 | exact H3].
Defined.

(** X17.  In synchronous mode, that is when at construction
    [decoderScripts] has no entry for the algorithm and the algorithm's
    name is not that of a member inherited from [Object.prototype], no
    operation ever invokes the decode-start or the error callback, nor any
    callback of a pool: errors only leave [decode] as exceptions. *)
Theorem synch_mode_never_starts_nor_errors (E : Engines) (T : ThreadPool)
    (scripts : gmap string string) (algo : string) (n : Z)
    (ops : list (Op T)) :
  scripts !! algo = None ->
  ~ In algo PixelBufferDecoder.objectPrototype ->
  let trace := snd (run E
                 (mkWorld scripts (PixelBufferDecoder.new T scripts algo n)) ops) in
  Forall (fun call => exists slot h e,
            call = Invoke slot h e /\ slot <> ondecodestart /\ slot <> onerror)
    trace.
Proof.
  intros Hnone Hown trace. subst trace.
  assert (Hgen : forall ops' (w : World T),
            (exists s, PixelBufferDecoder.pixelDecoder T (decoder w)
                       = PixelBufferDecoder.Synch T s) ->
            Forall (fun call => exists slot h e,
                      call = Invoke slot h e /\ slot <> ondecodestart /\
                      slot <> onerror)
              (snd (run E w ops'))).
  { induction ops' as [|o ops' IH]; intros w [s Hs]; cbn [run];
      [constructor|].
    pose proof (step_synch_slots E T w o s Hs) as H1.
    pose proof (step_routedAs E T None (SynchPixelBufferDecoder.algoName s)
                  (SynchPixelBufferDecoder.numberOfData s) w o) as Hr.
    rewrite Hs in Hr. specialize (Hr (conj eq_refl eq_refl)).
    destruct (step E w o) as [w1 tr1]. cbn [fst snd] in H1, Hr.
    assert (Hs1 : exists s1, PixelBufferDecoder.pixelDecoder T (decoder w1)
                             = PixelBufferDecoder.Synch T s1).
    { destruct (PixelBufferDecoder.pixelDecoder T (decoder w1)) as [a|s1];
        [destruct Hr | eauto]. }
    specialize (IH w1 Hs1). destruct (run E w1 ops') as [w2 tr2].
    cbn [snd] in *. apply Forall_app. split; assumption. }
  apply Hgen.
  destruct (run_synch E T scripts algo n [] Hnone Hown) as (s & Hs & _).
  exists s. exact Hs.
Qed.

Lemma synch_mode_never_starts_nor_errors_witness :
  Forall (fun call => exists slot h e,
            call = Invoke slot h e /\ slot <> ondecodestart /\ slot <> onerror)
    (snd (run bareHost
            (mkWorld ∅ (PixelBufferDecoder.new queuePool ∅ "rle" 1))
            [OpAssign ondecodestart (handler 1); OpDecode (frame 0); OpAbort])).
Proof.
  apply (synch_mode_never_starts_nor_errors bareHost queuePool ∅ "rle" 1).
  - reflexivity.
  - cbn. intuition discriminate.
Defined.

(** X18.  [abort()] on a facade in synchronous mode (no entry of
    [decoderScripts] for the algorithm at construction, and a name that is
    not inherited from [Object.prototype]) invokes the abort and then the
    decode-end callback of the delegate.  Before the first [decode] these
    are still the delegate's own do-nothing methods: an abort handler
    assigned to the facade is not invoked by an [abort()] that comes before
    any [decode]. *)
Theorem abort_before_first_decode (E : Engines) (T : ThreadPool)
    (scripts : gmap string string) (algo : string) (n : Z)
    (pre : list (Op T)) :
  scripts !! algo = None ->
  ~ In algo PixelBufferDecoder.objectPrototype ->
  forallb (fun o => negb (isDecode o)) pre = true ->
  let d0 := decoder (fst (run E
              (mkWorld scripts (PixelBufferDecoder.new T scripts algo n)) pre)) in
  PixelBufferDecoder.abort T d0
  = (d0,
     [Invoke onabort noop EmptyEvent; Invoke ondecodeend noop EmptyEvent],
     Returned).
Proof.
  intros Hnone Hown Hpre d0.
  destruct (run_pristine E T pre
              (mkWorld scripts (PixelBufferDecoder.new T scripts algo n))
              Hpre (new_pristine T scripts algo n)) as [[_ Hp0] _].
  fold d0 in Hp0.
  destruct (run_synch E T scripts algo n pre Hnone Hown) as (s & Hs & _).
  fold d0 in Hs. rewrite Hs in Hp0.
  unfold PixelBufferDecoder.abort, PixelBufferDecoder.delegateAbort.
  rewrite Hs. cbn. rewrite Hp0. cbn.
  destruct d0; cbn in *. subst. reflexivity.
Qed.

Lemma abort_before_first_decode_witness :
  snd (fst (PixelBufferDecoder.abort queuePool
    (decoder (fst (run bareHost
       (mkWorld ∅ (PixelBufferDecoder.new queuePool ∅ "rle" 2))
       [OpAssign onabort (handler 6)])))))
  = [Invoke onabort noop EmptyEvent; Invoke ondecodeend noop EmptyEvent].
Proof.
  assert (Hnone : (∅ : gmap string string) !! "rle" = None) by reflexivity.
  assert (Hown : ~ In "rle" PixelBufferDecoder.objectPrototype)
    by (cbn; intuition discriminate).
  rewrite (abort_before_first_decode bareHost queuePool ∅ "rle" 2
             [OpAssign onabort (handler 6)] Hnone Hown eq_refl).
  reflexivity.
Defined.

(** X19.  A [jpeg-lossless] call with a [bitsAllocated] other than 8 or
    16: the lossless engine is run, but what it decoded is dropped; the
    call returns and the per-item callback receives [data: [null]]. *)
Theorem jpeg_lossless_other_depth (E : Engines)
    (d : SynchPixelBufferDecoder.t) (pb : list Z) (pm : PixelMeta)
    (info : Info) (bytes : list Z) :
  SynchPixelBufferDecoder.algoName d = "jpeg-lossless" ->
  hasJpegLosslessDecoder E = true ->
  bitsAllocated pm <> 8 -> bitsAllocated pm <> 16 ->
  jpeg_lossless_decode E (newUint8ArrayFrom pb) 0
    (byteLength (newUint8ArrayFrom pb)) (Qmake (bitsAllocated pm) 8)
  = Ok bytes ->
  let r := SynchPixelBufferDecoder.decode E d pb pm info in
  completionOf r = Returned /\
  exists rest,
    traceOf r
    = Invoke ondecodeditem
        (cb_ondecodeditem (SynchPixelBufferDecoder.callbacks d))
        (ItemEvent [None] (itemNumber info)) :: rest.
Proof.
  intros Halgo Hhas H8 H16 Hdec r.
  assert (Hb : SynchPixelBufferDecoder.decodedBuffer E
                 (SynchPixelBufferDecoder.algoName d) pb pm = Ok None).
  { rewrite Halgo. unfold SynchPixelBufferDecoder.decodedBuffer.
    cbn [String.eqb Ascii.eqb Bool.eqb]. rewrite Hhas. cbn [negb].
    rewrite Hdec. cbn [bind].
    destruct (Z.eqb_spec (bitsAllocated pm) 8); [contradiction|].
    destruct (Z.eqb_spec (bitsAllocated pm) 16); [contradiction|].
    reflexivity. }
  subst r. rewrite (synch_decode_ok E d pb pm info None Hb).
  split; [reflexivity|]. eexists. reflexivity.
Qed.

Lemma jpeg_lossless_other_depth_witness :
  bitsAllocated (mkPixelMeta 32 false 4 1 0) <> 8 /\
  completionOf (SynchPixelBufferDecoder.decode fullHost
                  (SynchPixelBufferDecoder.new "jpeg-lossless" 1) [1; 2; 3; 4]
                  (mkPixelMeta 32 false 4 1 0) (mkInfo 0))
  = Returned.
Proof.
  assert (H8 : bitsAllocated (mkPixelMeta 32 false 4 1 0) <> 8) by discriminate.
  assert (H16 : bitsAllocated (mkPixelMeta 32 false 4 1 0) <> 16)
    by discriminate.
  split; [exact H8|].
  exact (proj1 (jpeg_lossless_other_depth fullHost
                  (SynchPixelBufferDecoder.new "jpeg-lossless" 1) [1; 2; 3; 4]
                  (mkPixelMeta 32 false 4 1 0) (mkInfo 0) [1; 2; 3; 4]
                  eq_refl eq_refl H8 H16 eq_refl)).
Defined.

(** X20.  An algorithm whose name is that of a member inherited from
    [Object.prototype] ([toString], [constructor], ...) is routed to the
    worker pool even when [decoderScripts] has no entry for it: the
    constructor reads [decoderScripts[algoName]], finds the inherited
    member and hands it to the asynchronous decoder as its script.  The
    delegate stays that one whatever happens afterwards. *)
Theorem inherited_name_routes_to_pool (E : Engines) (T : ThreadPool)
    (scripts : gmap string string) (algo : string) (n : Z)
    (ops : list (Op T)) :
  In algo PixelBufferDecoder.objectPrototype ->
  let d := decoder (fst (run E
             (mkWorld scripts (PixelBufferDecoder.new T scripts algo n)) ops)) in
  exists a,
    PixelBufferDecoder.pixelDecoder T d = PixelBufferDecoder.Asynch T a /\
    AsynchPixelBufferDecoder.script T a
    = match scripts !! algo with
      | Some path => ScriptPath path
      | None => Inherited algo
      end.
Proof.
  intros Hin d.
  pose proof (run_routedAs E T (PixelBufferDecoder.decoderScript scripts algo)
                algo n ops
                (mkWorld scripts (PixelBufferDecoder.new T scripts algo n))
                (new_routedAs T scripts algo n)) as Hr.
  fold d in Hr. unfold PixelBufferDecoder.decoderScript in Hr.
  assert (Hex : existsb (String.eqb algo) PixelBufferDecoder.objectPrototype
                = true).
  { apply existsb_exists. exists algo. split; [exact Hin|].
    apply String.eqb_refl. }
  rewrite Hex in Hr.
  destruct (scripts !! algo) as [path|];
    (destruct (PixelBufferDecoder.pixelDecoder T d) as [a|s];
     [exists a; split; [reflexivity | exact Hr] | destruct Hr]).
Qed.

Lemma inherited_name_routes_to_pool_witness :
  In "toString" PixelBufferDecoder.objectPrototype /\
  exists a,
    PixelBufferDecoder.pixelDecoder queuePool
      (decoder (fst (run bareHost
         (mkWorld ∅ (PixelBufferDecoder.new queuePool ∅ "toString" 1))
         [OpDecode (frame 0)])))
    = PixelBufferDecoder.Asynch queuePool a /\
    AsynchPixelBufferDecoder.script queuePool a = Inherited "toString".
Proof.
  assert (Hin : In "toString" PixelBufferDecoder.objectPrototype)
    by (cbn; tauto).
  split; [exact Hin|].
  exact (inherited_name_routes_to_pool bareHost queuePool ∅ "toString" 1
           [OpDecode (frame 0)] Hin).
Defined.
